(** * ai-code-connect: the Gemini adapter and the configuration loader

    A shallow embedding of [src/adapters/gemini.ts] and [src/config.ts].

    JavaScript strings are sequences of UTF-16 code units; they are modelled
    as [list Z].  The regular expressions of [cleanResponse] are kept as
    data ([pattern]) and run by a backtracking matcher that follows the
    ECMAScript semantics of the constructs the adapter uses: literals,
    greedy quantifiers over one character class, and the assertions [^]
    and [$] with and without the [m] flag. *)

From Stdlib Require Import ZArith List Lia Bool String Ascii DecimalString.
From stdpp Require Import base list gmap.
Import ListNotations.

Set Warnings "-register-all".
Local Open Scope Z_scope.

(** ** JavaScript strings *)

Module JS.

Definition jsstring := list Z.

(** Source literals are written as in the source (UTF-8) and decoded to
    UTF-16 code units.  Every character of the two source files lies in the
    Basic Multilingual Plane, so sequences of one to three bytes suffice. *)
Fixpoint utf8_bytes (s : string) : list Z :=
  match s with
  | EmptyString => []
  | String a r => Z.of_N (N_of_ascii a) :: utf8_bytes r
  end.

Fixpoint utf8_decode (bs : list Z) : jsstring :=
  match bs with
  | [] => []
  | b0 :: r0 =>
      if b0 <? 0x80 then b0 :: utf8_decode r0
      else match r0 with
           | [] => []
           | b1 :: r1 =>
               if b0 <? 0xE0
               then ((b0 - 0xC0) * 64 + (b1 - 0x80)) :: utf8_decode r1
               else match r1 with
                    | [] => []
                    | b2 :: r2 =>
                        ((b0 - 0xE0) * 4096 + (b1 - 0x80) * 64 + (b2 - 0x80))
                          :: utf8_decode r2
                    end
           end
  end.

Definition utf16 (s : string) : jsstring := utf8_decode (utf8_bytes s).

Definition LF : Z := 0x0A.
Definition ESC : Z := 0x1B.
Definition BEL : Z := 0x07.
Definition QUOTE : Z := 0x22.

(** LineTerminator of ECMAScript: LF, CR, LS, PS. *)
Definition is_lt (c : Z) : bool :=
  (c =? 0x0A) || (c =? 0x0D) || (c =? 0x2028) || (c =? 0x2029).

(** WhiteSpace and LineTerminator of ECMAScript: the class [\s], and the
    characters [String.prototype.trim] removes. *)
Definition is_ws (c : Z) : bool :=
  ((0x09 <=? c) && (c <=? 0x0D)) || (c =? 0x20) || (c =? 0xA0)
  || (c =? 0x1680) || ((0x2000 <=? c) && (c <=? 0x200A))
  || (c =? 0x2028) || (c =? 0x2029) || (c =? 0x202F) || (c =? 0x205F)
  || (c =? 0x3000) || (c =? 0xFEFF).

(** [.] without the [s] flag. *)
Definition is_dot (c : Z) : bool := negb (is_lt c).

(** [\d], [\w], [a-zA-Z]. *)
Definition is_digit (c : Z) : bool := (0x30 <=? c) && (c <=? 0x39).
Definition is_alpha (c : Z) : bool :=
  ((0x41 <=? c) && (c <=? 0x5A)) || ((0x61 <=? c) && (c <=? 0x7A)).
Definition is_word (c : Z) : bool := is_alpha c || is_digit c || (c =? 0x5F).

(** A bracket class listing its members, and a negated one. *)
Definition one_of (members : jsstring) (c : Z) : bool :=
  existsb (Z.eqb c) members.
Definition none_of (members : jsstring) (c : Z) : bool :=
  negb (one_of members c).
Definition either (p q : Z -> bool) (c : Z) : bool := p c || q c.

Fixpoint drop_while (p : Z -> bool) (s : jsstring) : jsstring :=
  match s with
  | c :: t => if p c then drop_while p t else s
  | [] => []
  end.

(** [String.prototype.trim] *)
Definition trim (s : jsstring) : jsstring :=
  rev (drop_while is_ws (rev (drop_while is_ws s))).

(** [s.split('\n')]: never empty, [''.split('\n')] is [['']]. *)
Fixpoint split_lines (s : jsstring) : list jsstring :=
  match s with
  | [] => [[]]
  | c :: t =>
      if c =? LF then [] :: split_lines t
      else match split_lines t with
           | l :: ls => (c :: l) :: ls
           | [] => [[c]]
           end
  end.

(** [parts.join(sep)] *)
Fixpoint join (sep : jsstring) (parts : list jsstring) : jsstring :=
  match parts with
  | [] => []
  | [p] => p
  | p :: rest => p ++ sep ++ join sep rest
  end.

(** [s.startsWith(p)] *)
Fixpoint startsWith (s p : jsstring) {struct p} : bool :=
  match p, s with
  | [], _ => true
  | a :: p', c :: s' => (a =? c) && startsWith s' p'
  | _ :: _, [] => false
  end.

(** ** Regular expressions *)

Inductive quant :=
| Once                 (* the class itself *)
| Opt                  (* ?     *)
| Star                 (* *     *)
| Plus                 (* +     *)
| AtLeast (n : nat).   (* {n,}  *)

Inductive item :=
| Lit (l : jsstring)                 (* the characters of l, in order *)
| LitI (l : jsstring)                (* the same under the flag i *)
| Cls (p : Z -> bool) (q : quant)    (* a class with a greedy quantifier *)
| Bol                                (* ^ under the flag m *)
| Eol                                (* $ under the flag m *)
| Bos                                (* ^ without the flag m *)
| Eos.                               (* $ without the flag m *)

Definition pattern := list item.

Definition q_min (q : quant) : nat :=
  match q with
  | Once => 1 | Opt => 0 | Star => 0 | Plus => 1 | AtLeast n => n
  end%nat.

(** The most repetitions a quantifier can take out of [avail] available. *)
Definition q_cap (q : quant) (avail : nat) : nat :=
  match q with
  | Once | Opt => Nat.min 1 avail
  | Star | Plus | AtLeast _ => avail
  end.

(** Canonicalize of ECMAScript (flag i, no flag u), exact when one side is
    an ASCII character: a character above U+007F never canonicalizes to an
    ASCII one. *)
Definition canon (c : Z) : Z :=
  if (0x61 <=? c) && (c <=? 0x7A) then c - 0x20 else c.

Fixpoint strip_prefix (same : Z -> Z -> bool) (l s : jsstring)
  : option jsstring :=
  match l, s with
  | [], _ => Some s
  | a :: l', c :: s' => if same a c then strip_prefix same l' s' else None
  | _ :: _, [] => None
  end.

(** Length of the longest prefix of [s] inside the class [p]. *)
Fixpoint span (p : Z -> bool) (s : jsstring) : nat :=
  match s with
  | c :: t => if p c then S (span p t) else O
  | [] => O
  end.

(** The character before the cursor once [consumed] has been read. *)
Definition last_read (prev : option Z) (consumed : jsstring) : option Z :=
  fold_left (fun _ c => Some c) consumed prev.

Definition at_bol (prev : option Z) : bool :=
  match prev with None => true | Some c => is_lt c end.
Definition at_eol (s : jsstring) : bool :=
  match s with [] => true | c :: _ => is_lt c end.
Definition at_bos (prev : option Z) : bool :=
  match prev with None => true | Some _ => false end.
Definition at_eos (s : jsstring) : bool :=
  match s with [] => true | _ :: _ => false end.

(** Backtracking over a greedy quantifier: the counts [lo + d], ...,
    [lo + 1], [lo] are tried in this order. *)
Fixpoint first_down {A} (f : nat -> option A) (lo d : nat) : option A :=
  match f (lo + d)%nat with
  | Some a => Some a
  | None => match d with
            | O => None
            | S d' => first_down f lo d'
            end
  end.

(** [m_pat r prev s]: the pattern [r] matched at the cursor whose previous
    character is [prev] and whose remaining input is [s]; the result is the
    length of the match the backtracking search finds first. *)
Fixpoint m_pat (r : pattern) (prev : option Z) (s : jsstring) : option nat :=
  match r with
  | [] => Some O
  | Lit l :: r' =>
      match strip_prefix Z.eqb l s with
      | Some s' =>
          option_map (Nat.add (length l))
            (m_pat r' (last_read prev (firstn (length l) s)) s')
      | None => None
      end
  | LitI l :: r' =>
      match strip_prefix (fun a c => canon a =? canon c) l s with
      | Some s' =>
          option_map (Nat.add (length l))
            (m_pat r' (last_read prev (firstn (length l) s)) s')
      | None => None
      end
  | Cls p q :: r' =>
      let hi := q_cap q (span p s) in
      if (hi <? q_min q)%nat then None
      else first_down
             (fun k => option_map (Nat.add k)
                         (m_pat r' (last_read prev (firstn k s)) (skipn k s)))
             (q_min q) (hi - q_min q)
  | Bol :: r' => if at_bol prev then m_pat r' prev s else None
  | Eol :: r' => if at_eol s then m_pat r' prev s else None
  | Bos :: r' => if at_bos prev then m_pat r' prev s else None
  | Eos :: r' => if at_eos s then m_pat r' prev s else None
  end.

(** RegExpBuiltinExec: the first position at or after the cursor where the
    pattern matches, as (offset, length). *)
Fixpoint search (r : pattern) (prev : option Z) (s : jsstring)
  : option (nat * nat) :=
  match m_pat r prev s with
  | Some n => Some (O, n)
  | None =>
      match s with
      | [] => None
      | c :: t =>
          match search r (Some c) t with
          | Some (i, n) => Some (S i, n)
          | None => None
          end
      end
  end.

(** [s.match(re)] used as a condition, for a regular expression without
    the flag g. *)
Definition matches (r : pattern) (s : jsstring) : bool :=
  match search r None s with Some _ => true | None => false end.

(** [s.replace(re, repl)] for a regular expression without the flag g. *)
Definition replace_first (r : pattern) (repl s : jsstring) : jsstring :=
  match search r None s with
  | Some (i, n) => firstn i s ++ repl ++ skipn (i + n) s
  | None => s
  end.

(** [s.replace(re, repl)] for a regular expression with the flag g.
    [skip] counts the characters of the current match still to be dropped;
    after an empty match the next character is copied and the search
    resumes behind it (AdvanceStringIndex). *)
Fixpoint replace_from (r : pattern) (repl : jsstring) (skip : nat)
  (prev : option Z) (s : jsstring) : jsstring :=
  match skip, s with
  | S k, c :: t => replace_from r repl k (Some c) t
  | S _, [] => []
  | O, [] => match m_pat r prev [] with
             | Some _ => repl
             | None => []
             end
  | O, c :: t =>
      match m_pat r prev s with
      | Some O => repl ++ c :: replace_from r repl O (Some c) t
      | Some (S k) => repl ++ replace_from r repl k (Some c) t
      | None => c :: replace_from r repl O (Some c) t
      end
  end.

Definition replace_all (r : pattern) (repl s : jsstring) : jsstring :=
  replace_from r repl O None s.

End JS.

(** ** The Gemini adapter: [src/adapters/gemini.ts] *)

Module Gemini.
Import JS.

Definition name : jsstring := utf16 "gemini".
Definition displayName : jsstring := utf16 "Gemini CLI".

(** *** The regular expressions of [cleanResponse], in source order *)

(** [/\x1b\[[0-9;]*[a-zA-Z]/g] *)
Definition re_csi : pattern :=
  [Lit [ESC]; Lit (utf16 "["); Cls (either is_digit (one_of (utf16 ";"))) Star;
   Cls is_alpha Once].

(** [/\x1b\[\??\d+[hl]/g] *)
Definition re_mode : pattern :=
  [Lit [ESC]; Lit (utf16 "["); Cls (one_of (utf16 "?")) Opt; Cls is_digit Plus;
   Cls (one_of (utf16 "hl")) Once].

(** [/\x1b\[\d* ?q/g] *)
Definition re_cursor : pattern :=
  [Lit [ESC]; Lit (utf16 "["); Cls is_digit Star; Cls (one_of (utf16 " ")) Opt;
   Lit (utf16 "q")].

(** [/\x1b\][^\x07]*\x07/g] *)
Definition re_osc : pattern :=
  [Lit [ESC]; Lit (utf16 "]"); Cls (none_of [BEL]) Star; Lit [BEL]].

(** [/Loaded cached credentials\.?\s*/g] *)
Definition re_credentials : pattern :=
  [Lit (utf16 "Loaded cached credentials"); Cls (one_of (utf16 ".")) Opt;
   Cls is_ws Star].

(** [/[⠋⠙⠹⠸⠼⠴⠦⠧⠇⠏]/g] *)
Definition spinner_frames : jsstring := utf16 "⠋⠙⠹⠸⠼⠴⠦⠧⠇⠏".
Definition re_spinner : pattern := [Cls (one_of spinner_frames) Once].

(** [/[╭╮╰╯│─┌┐└┘├┤┬┴┼║═╔╗╚╝╠╣╦╩╬]/g] *)
Definition box_chars : jsstring := utf16 "╭╮╰╯│─┌┐└┘├┤┬┴┼║═╔╗╚╝╠╣╦╩╬".
Definition re_box : pattern := [Cls (one_of box_chars) Once].

(** [/^\s*Using:.*MCP servers?\s*$/gm] *)
Definition re_using : pattern :=
  [Bol; Cls is_ws Star; Lit (utf16 "Using:"); Cls is_dot Star;
   Lit (utf16 "MCP server"); Cls (one_of (utf16 "s")) Opt; Cls is_ws Star; Eol].

(** [/^\s*~\/.*\(main\*?\).*$/gm] *)
Definition re_dir_status : pattern :=
  [Bol; Cls is_ws Star; Lit (utf16 "~/"); Cls is_dot Star; Lit (utf16 "(main");
   Cls (one_of (utf16 "*")) Opt; Lit (utf16 ")"); Cls is_dot Star; Eol].

(** [/^\s*no sandbox.*$/gim] *)
Definition re_no_sandbox : pattern :=
  [Bol; Cls is_ws Star; LitI (utf16 "no sandbox"); Cls is_dot Star; Eol].

(** [/^\s*auto\s*$/gm] *)
Definition re_auto : pattern :=
  [Bol; Cls is_ws Star; Lit (utf16 "auto"); Cls is_ws Star; Eol].

(** [/^\s*Reading.*\(esc to cancel.*\)\s*$/gm] *)
Definition re_reading : pattern :=
  [Bol; Cls is_ws Star; Lit (utf16 "Reading"); Cls is_dot Star;
   Lit (utf16 "(esc to cancel"); Cls is_dot Star; Lit (utf16 ")");
   Cls is_ws Star; Eol].

(** [/^\s*Type your message or @path.*$/gm] *)
Definition re_type_hint : pattern :=
  [Bol; Cls is_ws Star; Lit (utf16 "Type your message or @path");
   Cls is_dot Star; Eol].

(** [/^\s*>\s*Type your message.*$/gm] *)
Definition re_prompt_hint : pattern :=
  [Bol; Cls is_ws Star; Lit (utf16 ">"); Cls is_ws Star;
   Lit (utf16 "Type your message"); Cls is_dot Star; Eol].

(** [/^\s*\?\s*for shortcuts\s*$/gm] *)
Definition re_shortcuts : pattern :=
  [Bol; Cls is_ws Star; Lit (utf16 "?"); Cls is_ws Star;
   Lit (utf16 "for shortcuts"); Cls is_ws Star; Eol].

(** [/^\s*Try ".*"\s*$/gm] *)
Definition re_try : pattern :=
  [Bol; Cls is_ws Star; Lit (utf16 "Try " ++ [QUOTE]); Cls is_dot Star;
   Lit [QUOTE]; Cls is_ws Star; Eol].

(** [/^\s*[✓✗]\s+\w+.*$/gm] *)
Definition re_tool_status : pattern :=
  [Bol; Cls is_ws Star; Cls (one_of (utf16 "✓✗")) Once; Cls is_ws Plus;
   Cls is_word Plus; Cls is_dot Star; Eol].

(** [/^>\s*$/gm] *)
Definition re_prompt : pattern :=
  [Bol; Lit (utf16 ">"); Cls is_ws Star; Eol].

(** [/^✦\s*/] *)
Definition MARKER : jsstring := utf16 "✦".
Definition re_marker : pattern := [Bos; Lit MARKER; Cls is_ws Star].

(** [/^[\s│─╭╮╰╯]*$/] *)
Definition re_garbage : pattern :=
  [Bos; Cls (either is_ws (one_of (utf16 "│─╭╮╰╯"))) Star; Eos].

(** [/\n{3,}/g] *)
Definition re_blank_run : pattern := [Cls (one_of [LF]) (AtLeast 3)].

(** [/^\s+$/gm] *)
Definition re_blank_line : pattern := [Bol; Cls is_ws Plus; Eol].

(** *** [cleanResponse] *)

(** The four escape-sequence replacements, the credentials line and the
    spinner frames. *)
Definition strip_control (output : jsstring) : jsstring :=
  let output := replace_all re_csi [] output in
  let output := replace_all re_mode [] output in
  let output := replace_all re_cursor [] output in
  let output := replace_all re_osc [] output in
  let output := replace_all re_credentials [] output in
  replace_all re_spinner [] output.

Definition strip_box (output : jsstring) : jsstring :=
  replace_all re_box [] output.

(** The lines of the Gemini user interface, the tool status lines and the
    prompt character. *)
Definition ui_patterns : list pattern :=
  [re_using; re_dir_status; re_no_sandbox; re_auto; re_reading; re_type_hint;
   re_prompt_hint; re_shortcuts; re_try; re_tool_status; re_prompt].

Definition strip_ui (output : jsstring) : jsstring :=
  fold_left (fun out r => replace_all r [] out) ui_patterns output.

(** Everything up to the extraction of the response blocks. *)
Definition strip_chrome (rawOutput : jsstring) : jsstring :=
  strip_ui (strip_box (strip_control rawOutput)).

(** The variables of the extraction loop. *)
Record scan := Scan {
  responseBlocks : list jsstring;
  inResponse : bool;
  currentBlock : list jsstring;
}.

Definition scan_init : scan := Scan [] false [].

(** The test that keeps a line of a response: not made of white space and
    border characters only, and longer than two characters. *)
Definition keeps (trimmed : jsstring) : bool :=
  negb (matches re_garbage trimmed) && (2 <? length trimmed)%nat.

(** One iteration of [for (const line of lines)]. *)
Definition scan_line (st : scan) (line : jsstring) : scan :=
  let trimmed := trim line in
  if startsWith trimmed MARKER then
    Scan (if (0 <? length (currentBlock st))%nat
          then responseBlocks st ++ [join [LF] (currentBlock st)]
          else responseBlocks st)
         true
         [replace_first re_marker [] trimmed]
  else if inResponse st && (0 <? length trimmed)%nat then
    if keeps trimmed
    then Scan (responseBlocks st) (inResponse st) (currentBlock st ++ [line])
    else st
  else if (length trimmed =? 0)%nat && inResponse st then
    Scan (responseBlocks st) (inResponse st) (currentBlock st ++ [[]])
  else st.

(** The loop and the push of the last block. *)
Definition collect_blocks (lines : list jsstring) : list jsstring :=
  let st := fold_left scan_line lines scan_init in
  if (0 <? length (currentBlock st))%nat
  then responseBlocks st ++ [join [LF] (currentBlock st)]
  else responseBlocks st.

(** The response blocks when there are some, the input otherwise. *)
Definition extract_response (output : jsstring) : jsstring :=
  let blocks := collect_blocks (split_lines output) in
  if (0 <? length blocks)%nat then join [LF; LF] blocks else output.

(** The final cleanup. *)
Definition collapse_blank_runs (output : jsstring) : jsstring :=
  replace_all re_blank_run [LF; LF] output.

Definition strip_blank_lines (output : jsstring) : jsstring :=
  replace_all re_blank_line [] output.

Definition final_cleanup (output : jsstring) : jsstring :=
  trim (strip_blank_lines (collapse_blank_runs output)).

Definition cleanResponse (rawOutput : jsstring) : jsstring :=
  final_cleanup (extract_response (strip_chrome rawOutput)).

(** *** The adapter object *)

(** [SendOptions] of [adapters/base.ts]; both fields are optional. *)
Record SendOptions := {
  continueSession : option bool;
  cwd : option jsstring;
}.

(** The one mutable field of the class. *)
Record adapter := { hasActiveSession : bool }.

Definition new_adapter : adapter := {| hasActiveSession := false |}.

(** [options?.continueSession] *)
Definition opt_continueSession (options : option SendOptions) : option bool :=
  match options with
  | Some o => continueSession o
  | None => None
  end.

(** [v !== false] *)
Definition not_false (v : option bool) : bool :=
  match v with
  | Some false => false
  | _ => true
  end.

Definition getCommand (this : adapter) (prompt : jsstring)
  (options : option SendOptions) : list jsstring :=
  let args := [] in
  let shouldContinue :=
    not_false (opt_continueSession options) && hasActiveSession this in
  let args :=
    if shouldContinue then args ++ [utf16 "--resume"; utf16 "latest"]
    else args in
  let args := args ++ [prompt] in
  utf16 "gemini" :: args.

Definition getInteractiveCommand (this : adapter)
  (options : option SendOptions) : list jsstring :=
  let args := [] in
  let args :=
    if not_false (opt_continueSession options) && hasActiveSession this
    then args ++ [utf16 "--resume"; utf16 "latest"]
    else args in
  utf16 "gemini" :: args.

Definition getPersistentArgs (this : adapter) : list jsstring :=
  if hasActiveSession this then [utf16 "--resume"; utf16 "latest"] else [].

(** What [runCommand] of [utils.ts] resolves to. *)
Record CommandResult := {
  exitCode : Z;
  stdout : jsstring;
  stderr : jsstring;
}.

(** A thrown [Error] and its message. *)
Inductive Error := MkError (message : jsstring).

Definition message_of (e : Error) : jsstring :=
  match e with MkError m => m end.

(** [a || b] on strings: the empty string is the falsy one. *)
Definition or_else (a b : jsstring) : jsstring :=
  match a with
  | [] => b
  | _ :: _ => a
  end.

(** [`${n}`] for an integer. *)
Definition show_int (n : Z) : jsstring :=
  utf16 (NilEmpty.string_of_int (Z.to_int n)).

Section Send.

(** [runCommand] and [process.cwd] come from outside the adapter:
    [runCommand command args cwd] either rejects or resolves to a result. *)
Variable runCommand : jsstring -> list jsstring -> jsstring -> Error + CommandResult.
Variable process_cwd : jsstring.

(** [options?.cwd || process.cwd()] *)
Definition send_cwd (options : option SendOptions) : jsstring :=
  match options with
  | Some o => match cwd o with
              | Some d => or_else d process_cwd
              | None => process_cwd
              end
  | None => process_cwd
  end.

(** [send]: the adapter afterwards, and the rejection or the resolved
    value of the promise. *)
Definition send (this : adapter) (prompt : jsstring)
  (options : option SendOptions) : adapter * (Error + jsstring) :=
  let args := tl (getCommand this prompt options) in
  match runCommand (utf16 "gemini") args (send_cwd options) with
  | inl e => (this, inl e)
  | inr result =>
      if negb (exitCode result =? 0) then
        let errorMsg :=
          or_else (trim (stderr result))
            (or_else (trim (stdout result)) (utf16 "Unknown error")) in
        (this,
         inl (MkError (utf16 "Gemini CLI exited with code "
                         ++ show_int (exitCode result)
                         ++ utf16 ": " ++ errorMsg)))
      else
        ({| hasActiveSession := true |}, inr (trim (stdout result)))
  end.

End Send.

Definition resetContext (this : adapter) : adapter :=
  {| hasActiveSession := false |}.

Definition hasSession (this : adapter) : bool := hasActiveSession this.

Definition setHasSession (this : adapter) (value : bool) : adapter :=
  {| hasActiveSession := value |}.

(** The calls a client can make on the adapter, and the adapter after
    each of them. *)
Inductive call :=
| CallGetCommand (prompt : jsstring) (options : option SendOptions)
| CallGetInteractiveCommand (options : option SendOptions)
| CallGetPersistentArgs
| CallCleanResponse (rawOutput : jsstring)
| CallSend (prompt : jsstring) (options : option SendOptions)
| CallResetContext
| CallHasSession
| CallSetHasSession (value : bool).

Definition after_call
  (runCommand : jsstring -> list jsstring -> jsstring -> Error + CommandResult)
  (process_cwd : jsstring) (this : adapter) (c : call) : adapter :=
  match c with
  | CallSend prompt options =>
      fst (send runCommand process_cwd this prompt options)
  | CallResetContext => resetContext this
  | CallSetHasSession value => setHasSession this value
  | CallGetCommand _ _ | CallGetInteractiveCommand _ | CallGetPersistentArgs
  | CallCleanResponse _ | CallHasSession => this
  end.

End Gemini.

(** ** The configuration loader: [src/config.ts] *)

Module Config.
Import JS.

(** A computation that returns or throws. *)
Inductive Exn :=
| SyntaxError        (* JSON.parse *)
| TypeError          (* a property read on null or undefined *)
| SystemError.       (* the file system *)

Definition throws (A : Type) : Type := Exn + A.

Definition ret {A} (a : A) : throws A := inr a.
Definition throw {A} (e : Exn) : throws A := inl e.
Definition bind {A B} (m : throws A) (k : A -> throws B) : throws B :=
  match m with
  | inl e => inl e
  | inr a => k a
  end.
Definition try_catch {A} (body : throws A) (handler : Exn -> throws A)
  : throws A :=
  match body with
  | inl e => handler e
  | inr a => inr a
  end.

Notation "'let*' x := m 'in' k" := (bind m (fun x => k))
  (at level 10, x name, m at level 100, k at level 200).

Section Values.

(** JSON numbers are doubles; [loadConfig] never looks inside one, so their
    type stays abstract. *)
Context {number : Type}.

(** The values [JSON.parse] builds, and [undefined]. *)
Inductive jsval :=
| VUndefined
| VNull
| VBool (b : bool)
| VNumber (n : number)
| VString (s : jsstring)
| VArray (items : list jsval)
| VObject (props : gmap jsstring jsval).

(** The decimal key of an array index. *)
Definition index_key (i : nat) : jsstring :=
  utf16 (NilEmpty.string_of_uint (Nat.to_uint i)).

(** The own enumerable properties an object spread [...v] copies: the
    properties of an object, the elements of an array, the characters of a
    string, nothing for the other values. *)
Definition own_props (v : jsval) : gmap jsstring jsval :=
  match v with
  | VObject props => props
  | VArray items => list_to_map (imap (fun i x => (index_key i, x)) items)
  | VString s => list_to_map (imap (fun i c => (index_key i, VString [c])) s)
  | VUndefined | VNull | VBool _ | VNumber _ => ∅
  end.

(** [{ ...a, ...b }]: the properties of [b] win. *)
Definition spread2 (a b : jsval) : gmap jsstring jsval :=
  own_props b ∪ own_props a.

(** [v.tools]: a [TypeError] on null and undefined; no prototype defines a
    property of this name, so it is the own property or [undefined]. *)
Definition get_tools (v : jsval) : throws jsval :=
  match v with
  | VUndefined | VNull => throw TypeError
  | VObject props => ret (default VUndefined (props !! utf16 "tools"))
  | VBool _ | VNumber _ | VString _ | VArray _ => ret VUndefined
  end.

Definition str_array (l : list string) : jsval :=
  VArray (map (fun s => VString (utf16 s)) l).

Definition tool_config (command : string) (defaultFlags : list string) : jsval :=
  VObject (<[utf16 "command" := VString (utf16 command)]>
           (<[utf16 "defaultFlags" := str_array defaultFlags]> ∅)).

Definition DEFAULT_TOOLS : gmap jsstring jsval :=
  <[utf16 "claude" :=
      tool_config "claude" ["-p"; "--output-format"; "text"]%string]>
  (<[utf16 "gemini" := tool_config "gemini" ["-o"; "text"]%string]> ∅).

Definition DEFAULT_CONFIG : jsval :=
  VObject (<[utf16 "defaultTool" := VString (utf16 "claude")]>
           (<[utf16 "tools" := VObject DEFAULT_TOOLS]> ∅)).

(** The host: [os.homedir], [path.join], [fs.existsSync],
    [fs.readFileSync(path, 'utf-8')] and [JSON.parse]. *)
Variable homedir : jsstring.
Variable path_join : list jsstring -> jsstring.
Variable existsSync : jsstring -> bool.
Variable readFileSync : jsstring -> throws jsstring.
Variable JSON_parse : jsstring -> throws jsval.

Definition getConfigDir : jsstring := path_join [homedir; utf16 ".aic"].

Definition getConfigPath : jsstring :=
  path_join [getConfigDir; utf16 "config.json"].

(** What [loadConfig] hands back: the lines it printed with
    [console.warn], and the configuration. *)
Record loaded_config := {
  warnings : list jsstring;
  config : jsval;
}.

(** The body of the [try] block. *)
Definition load_from_file (configPath : jsstring) : throws loaded_config :=
  let* content := readFileSync configPath in
  let* loaded := JSON_parse content in
  let* loaded_tools := get_tools loaded in
  ret {| warnings := [];
         config :=
           VObject (<[utf16 "tools" :=
                        VObject (spread2 (VObject DEFAULT_TOOLS) loaded_tools)]>
                    (spread2 DEFAULT_CONFIG loaded)) |}.

Definition loadConfig : throws loaded_config :=
  let configPath := getConfigPath in
  if negb (existsSync configPath) then
    ret {| warnings := []; config := VObject (own_props DEFAULT_CONFIG) |}
  else
    try_catch (load_from_file configPath)
      (fun _ =>
         ret {| warnings := [utf16 "Failed to load config, using defaults"];
                config := VObject (own_props DEFAULT_CONFIG) |}).

(** [config.tools[name]] is defined. *)
Definition has_tool (cfg : jsval) (name : jsstring) : Prop :=
  exists tools,
    own_props cfg !! utf16 "tools" = Some (VObject tools)
    /\ is_Some (tools !! name).

End Values.

Arguments jsval : clear implicits.

End Config.

(** ** The configuration on disk: the rest of [src/config.ts] *)

Module Store.
Import JS Config.

(** [s.toLowerCase()].  On ASCII text the capitals are lowered; a text with
    other characters is lowered by the host, which knows Unicode. *)
Definition is_ascii (c : Z) : bool := (0 <=? c) && (c <? 0x80).

Definition ascii_lower (c : Z) : Z :=
  if (0x41 <=? c) && (c <=? 0x5A) then c + 0x20 else c.

(** [list.includes(x)] on strings. *)
Definition includes (l : list jsstring) (x : jsstring) : bool :=
  bool_decide (x ∈ l).

(** What [setDefaultTool] returns. *)
Record set_result := {
  success : bool;
  message : jsstring;
}.

Section Host.

Context {number : Type}.

(** The state of the host: the file system and the console. *)
Variable world : Type.

(** A computation on the host: the world afterwards, and a value or an
    exception. *)
Definition io (A : Type) : Type := world -> world * throws A.

Definition io_ret {A} (a : A) : io A := fun w => (w, ret a).

Definition io_bind {A B} (m : io A) (k : A -> io B) : io B :=
  fun w =>
    match m w with
    | (w', inl e) => (w', inl e)
    | (w', inr a) => k a w'
    end.

Notation "'let!' x := m 'in' k" := (io_bind m (fun x => k))
  (at level 10, x name, m at level 100, k at level 200).

(** A computation that does not change the world. *)
Definition io_pure {A} (m : throws A) : io A := fun w => (w, m).

(** The host: [os.homedir], [path.join], the calls of [fs], [JSON],
    [console.warn], [process.env.AIC_DEFAULT_TOOL], the lowering of text
    that is not ASCII, and the truth value of a number. *)
Variable homedir : jsstring.
Variable path_join : list jsstring -> jsstring.
Variable existsSync : jsstring -> world -> bool.
Variable readFileSync : jsstring -> world -> throws jsstring.
Variable mkdirSync : jsstring -> io unit.
Variable writeFileSync : jsstring -> jsstring -> io unit.
Variable console_warn : jsstring -> world -> world.
Variable JSON_parse : jsstring -> throws (jsval number).
Variable JSON_stringify : jsval number -> throws jsstring.
Variable AIC_DEFAULT_TOOL : option jsstring.
Variable host_lower : jsstring -> jsstring.
Variable number_truthy : number -> bool.

Definition toLowerCase (s : jsstring) : jsstring :=
  if forallb is_ascii s then map ascii_lower s else host_lower s.

(** ToBoolean *)
Definition truthy (v : jsval number) : bool :=
  match v with
  | VUndefined | VNull => false
  | VBool b => b
  | VNumber n => number_truthy n
  | VString s => negb (at_eos s)
  | VArray _ | VObject _ => true
  end.

(** [a || b] on values. *)
Definition value_or (a b : jsval number) : jsval number :=
  if truthy a then a else b.

(** [config.defaultTool], for the object [loadConfig] has built. *)
Definition get_defaultTool (config : jsval number) : jsval number :=
  default VUndefined (own_props config !! utf16 "defaultTool").

(** [config.defaultTool = value], for the object [loadConfig] has built. *)
Definition set_defaultTool (config : jsval number) (value : jsstring)
  : jsval number :=
  VObject (<[utf16 "defaultTool" := VString value]> (own_props config)).

Definition configDir : jsstring := getConfigDir homedir path_join.
Definition configPath : jsstring := getConfigPath homedir path_join.

Definition ensureConfigDir : io unit :=
  fun w =>
    let dir := configDir in
    if negb (existsSync dir w) then mkdirSync dir w else (w, ret tt).

(** [loadConfig] on the world: what it warns goes to the console. *)
Definition load : io (jsval number) :=
  fun w =>
    match loadConfig homedir path_join (fun p => existsSync p w)
            (fun p => readFileSync p w) JSON_parse with
    | inl e => (w, inl e)
    | inr r => (fold_left (fun w' m => console_warn m w') (warnings r) w,
                inr (config r))
    end.

Definition saveConfig (config : jsval number) : io unit :=
  let! _ := ensureConfigDir in
  let! text := io_pure (JSON_stringify config) in
  writeFileSync configPath text.

Definition validTools : list jsstring := [utf16 "claude"; utf16 "gemini"].

(** [envTool && ['claude', 'gemini'].includes(envTool.toLowerCase())] *)
Definition env_choice : option jsstring :=
  match AIC_DEFAULT_TOOL with
  | Some envTool =>
      if negb (at_eos envTool) && includes validTools (toLowerCase envTool)
      then Some (toLowerCase envTool)
      else None
  | None => None
  end.

Definition getDefaultTool : io (jsval number) :=
  match env_choice with
  | Some tool => io_ret (VString tool)
  | None =>
      let! config := load in
      io_ret (value_or (get_defaultTool config) (VString (utf16 "claude")))
  end.

Definition setDefaultTool (tool : jsstring) : io set_result :=
  let normalizedTool := toLowerCase tool in
  if negb (includes validTools normalizedTool) then
    io_ret {| success := false;
              message := utf16 "Invalid tool " ++ [QUOTE] ++ tool ++ [QUOTE]
                         ++ utf16 ". Valid options: "
                         ++ join (utf16 ", ") validTools |}
  else
    let! config := load in
    let config := set_defaultTool config normalizedTool in
    let! _ := saveConfig config in
    io_ret {| success := true;
              message := utf16 "Default tool set to " ++ [QUOTE]
                         ++ normalizedTool ++ [QUOTE]
                         ++ utf16 ". Will be used on next launch." |}.

End Host.

End Store.

(** ** The other members of the Gemini adapter, and the tool list of
    [src/index.ts] *)

Module Cli.
Import JS Gemini.

(** [readonly promptPattern = /^>\s*$/m] *)
Definition promptPattern : pattern :=
  [Bol; Lit (utf16 ">"); Cls is_ws Star; Eol].

(** Milliseconds. *)
Definition idleTimeout : Z := 1500.
Definition startupDelay : Z := 8000.

(** [s.padEnd(n)] *)
Definition padEnd (s : jsstring) (n : nat) : jsstring :=
  s ++ repeat 0x20 (n - length s).

(** The line the command [tools] prints for an adapter. *)
Definition tool_status (available : bool) : jsstring :=
  if available then utf16 "✓ available" else utf16 "✗ not found".

Definition tool_line (name displayName : jsstring) (available : bool)
  : jsstring :=
  utf16 "  " ++ padEnd name 10 ++ utf16 " " ++ padEnd displayName 15
  ++ utf16 " " ++ tool_status available.

End Cli.

(** ** [cleanResponse] at run time

    The types of TypeScript are erased: at run time the argument of
    [cleanResponse] is any value.  The first thing the function does with
    it is [rawOutput.replace(...)], a property read and a call: a
    [TypeError] on [undefined] and [null], of which no property can be
    read, and on the numbers, booleans, arrays and objects of [JSON], whose
    [replace] is no function.  Behind that call every receiver is a string:
    the result of [replace] or [trim], or an element of the array that
    [split] returns; and [match] returns [null] or an array, of which only
    the truth value is taken. *)

Module Runtime.
Import JS Gemini Config.

Definition call_cleanResponse (rawOutput : jsval Z) : throws jsstring :=
  match rawOutput with
  | VString s => ret (cleanResponse s)
  | VUndefined | VNull | VBool _ | VNumber _ | VArray _ | VObject _ =>
      throw TypeError
  end.

End Runtime.

(** ** A host in memory

    A file system with directories and text files, a console, and the
    smallest [JSON] that carries the property [defaultTool]; the examples
    of the configuration store run on it. *)

Module MemoryHost.
Import JS Config Store.

Record world := {
  dirs : list jsstring;
  files : list (jsstring * jsstring);
  console : list jsstring;
}.

Definition same (a b : jsstring) : bool := bool_decide (a = b).

Fixpoint find_file (p : jsstring) (fs : list (jsstring * jsstring))
  : option jsstring :=
  match fs with
  | [] => None
  | (q, text) :: rest => if same p q then Some text else find_file p rest
  end.

Definition existsSync (p : jsstring) (w : world) : bool :=
  existsb (same p) (dirs w)
  || match find_file p (files w) with Some _ => true | None => false end.

Definition readFileSync (p : jsstring) (w : world) : throws jsstring :=
  match find_file p (files w) with
  | Some text => ret text
  | None => throw SystemError
  end.

Definition mkdirSync (p : jsstring) : io world unit :=
  fun w => ({| dirs := p :: dirs w; files := files w;
               console := console w |}, ret tt).

Definition writeFileSync (p text : jsstring) : io world unit :=
  fun w => ({| dirs := dirs w; files := (p, text) :: files w;
               console := console w |}, ret tt).

Definition console_warn (m : jsstring) (w : world) : world :=
  {| dirs := dirs w; files := files w; console := console w ++ [m] |}.

Definition homedir : jsstring := utf16 "/home/u".

Definition path_join (parts : list jsstring) : jsstring :=
  join (utf16 "/") parts.

(** The text of a configuration is its [defaultTool]; a configuration
    without one is not written. *)
Definition JSON_stringify (v : jsval Z) : throws jsstring :=
  match own_props v !! utf16 "defaultTool" with
  | Some (VString s) => ret s
  | _ => throw TypeError
  end.

Definition JSON_parse (text : jsstring) : throws (jsval Z) :=
  ret (VObject (<[utf16 "defaultTool" := VString text]> ∅)).

Definition host_lower (s : jsstring) : jsstring := s.

Definition number_truthy (n : Z) : bool := negb (n =? 0).

(** A home directory and nothing else. *)
Definition fresh : world :=
  {| dirs := [homedir]; files := []; console := [] |}.

End MemoryHost.

(** ** Notions the properties are stated with *)

Module Notions.
Import JS Gemini.

(** [x] occurs in [s] ([s.includes(x)]). *)
Definition occurs_in (x s : jsstring) : Prop :=
  exists pre post, s = pre ++ x ++ post.

(** ["continuation is disabled"]: the caller passed
    [continueSession: false]. *)
Definition continuation_disabled (options : option SendOptions) : bool :=
  match options with
  | Some o => match continueSession o with
              | Some false => true
              | _ => false
              end
  | None => false
  end.

(** A send is successful when [runCommand] resolves with exit code zero. *)
Definition successful_send
  (runCommand : jsstring -> list jsstring -> jsstring -> Error + CommandResult)
  (process_cwd : jsstring) (this : adapter) (c : call) : Prop :=
  exists prompt options result,
    c = CallSend prompt options
    /\ runCommand (utf16 "gemini") (tl (getCommand this prompt options))
         (send_cwd process_cwd options) = inr result
    /\ exitCode result = 0.

(** *** The lines of a chrome-stripped text *)

(** A marker line: its trimmed form starts with the marker. *)
Definition is_marker_line (line : jsstring) : bool :=
  startsWith (trim line) MARKER.

(** A blank line: nothing is left of it once trimmed. *)
Definition is_blank_line (line : jsstring) : bool :=
  (length (trim line) =? 0)%nat.

(** The text of a marker line: trimmed, the marker and the white space
    behind it removed. *)
Definition after_marker (line : jsstring) : jsstring :=
  drop_while is_ws (skipn 1 (trim line)).

Definition border_or_ws (c : Z) : bool :=
  is_ws c || one_of (utf16 "│─╭╮╰╯") c.

(** The lines a block keeps: more than two characters once trimmed, and
    not white space and border characters only. *)
Definition kept_line (line : jsstring) : bool :=
  (2 <? length (trim line))%nat && negb (forallb border_or_ws (trim line)).

(** What a line behind the marker line adds to the block: an empty line
    for a blank line, the line itself when it is kept, nothing otherwise. *)
Definition block_entry (line : jsstring) : list jsstring :=
  if is_blank_line line then [[]]
  else if kept_line line then [line]
  else [].

(** A segment is a marker line with the lines up to the next marker line;
    its block is the text of the marker line followed by the entries of
    the other lines, joined by newlines. *)
Definition segment : Type := jsstring * list jsstring.

Definition segment_lines (seg : segment) : list jsstring := fst seg :: snd seg.

Definition well_formed_segment (seg : segment) : Prop :=
  is_marker_line (fst seg) = true
  /\ Forall (fun l => is_marker_line l = false) (snd seg).

Definition block_text (seg : segment) : jsstring :=
  join [LF] (after_marker (fst seg) :: flat_map block_entry (snd seg)).

(** *** Sample outputs of the Gemini command line *)

Definition text_of_lines (lines : list string) : jsstring :=
  join [LF] (map utf16 lines).

(** A spinner frame, a bordered panel with the status line of a tool, and
    the marked answer. *)
Definition sample_output : jsstring :=
  text_of_lines
    ["⠋ Thinking..."; "╭──────────────╮"; "│ ✓ ReadFile │"; "╰──────────────╯";
     "✓ ReadFile"; "⠙"; "✦ The answer is 42"; EmptyString]%string.

(** The same with escape sequences around the frames and the answer, and
    the status line and a spinner frame behind the answer. *)
Definition sample_output_ansi : jsstring :=
  [ESC] ++ utf16 "[2K" ++ [ESC] ++ utf16 "[1G⠹ Working"
  ++ [LF] ++ [ESC] ++ utf16 "[?25l" ++ utf16 "┌────┐" ++ [LF]
  ++ [ESC] ++ utf16 "[95m✦ The answer is 42" ++ [ESC] ++ utf16 "[0m" ++ [LF]
  ++ utf16 "  ✓ ReadFile src/index.ts" ++ [LF]
  ++ utf16 "└────┘" ++ [LF] ++ utf16 "⠼" ++ [LF].

(** No terminal control character: nothing below U+0020 but the newline,
    and no DEL. *)
Definition no_control (s : jsstring) : bool :=
  forallb (fun c => (c =? LF) || ((0x20 <=? c) && negb (c =? 0x7F))) s.

(** No white space at either end. *)
Definition no_outer_space (s : jsstring) : bool :=
  match s, rev s with
  | c :: _, d :: _ => negb (is_ws c) && negb (is_ws d)
  | _, _ => true
  end.

(** Two marked blocks behind a preamble; the second has a blank line, a
    short line and a longer one. *)
Definition two_blocks : jsstring :=
  text_of_lines
    ["Loaded cached credentials."; "✦ First answer"; "✦ Second answer";
     EmptyString; "ok"; "with details"]%string.

(** *** Runs of newlines *)

Definition starts_with_newline (s : jsstring) : bool :=
  match s with
  | c :: _ => c =? LF
  | [] => false
  end.

Definition ends_with_newline (s : jsstring) : bool :=
  starts_with_newline (rev s).

(** What is left of a run of [k] newlines: two of them when there are
    three or more, the run itself otherwise. *)
Definition collapsed_run (k : nat) : jsstring :=
  repeat LF (if (3 <=? k)%nat then 2%nat else k).

(** *** Sizes *)


(** *** Text that is already clean *)

(** [s] starts with [p], case of the ASCII letters ignored. *)
Definition starts_with_ci (s p : jsstring) : bool :=
  match strip_prefix (fun a c => canon a =? canon c) p s with
  | Some _ => true
  | None => false
  end.

(** What the lines of the Gemini interface begin with. *)
Definition chrome_heads : list jsstring :=
  [utf16 "Using:"; utf16 "~/"; utf16 "auto"; utf16 "Reading";
   utf16 "Type your message or @path"; utf16 ">"; utf16 "?";
   utf16 "Try " ++ [QUOTE]; utf16 "✓"; utf16 "✗"].

Definition starts_chrome (s : jsstring) : bool :=
  existsb (startsWith s) chrome_heads || starts_with_ci s (utf16 "no sandbox").

(** From the cursor, one or more white-space characters and then the end
    of a line. *)
Definition blank_to_eol (s : jsstring) : bool :=
  existsb (fun j => at_eol (skipn j s)) (seq 1 (span is_ws s)).

(** Not an escape character, a spinner frame, a box-drawing character or
    the marker. *)
Definition plain_char (c : Z) : bool :=
  negb (c =? ESC) && negb (one_of spinner_frames c)
  && negb (one_of box_chars c) && negb (one_of MARKER c).

(** The text at a cursor has nothing for [cleanResponse] to strip: a plain
    character; not the credentials line; not three newlines; and, when
    the cursor is at the start of a line, neither the head of a chrome
    line behind optional white space nor white space up to the end of a
    line. *)
Definition clean_at (prev : option Z) (s : jsstring) : bool :=
  match s with c :: _ => plain_char c | [] => true end
  && negb (startsWith s (utf16 "Loaded cached credentials"))
  && negb (startsWith s [LF; LF; LF])
  && negb (at_bol prev && (starts_chrome (drop_while is_ws s) || blank_to_eol s)).

Fixpoint clean_from (prev : option Z) (s : jsstring) : bool :=
  clean_at prev s
  && match s with
     | [] => true
     | c :: t => clean_from (Some c) t
     end.

(** An already clean text: clean at every cursor, and no white space at
    either end. *)
Definition already_clean (T : jsstring) : bool :=
  no_outer_space T && clean_from None T.

(** *** Notions of the proofs *)

(** A property of every cursor of [s]: of every suffix, with the character
    before it. *)
Fixpoint all_cursors (P : option Z -> jsstring -> Prop) (prev : option Z)
  (s : jsstring) : Prop :=
  P prev s /\ match s with
              | [] => True
              | c :: t => all_cursors P (Some c) t
              end.

(** The blocks once the loop has ended. *)
Definition finish (st : scan) : list jsstring :=
  if (0 <? length (currentBlock st))%nat
  then responseBlocks st ++ [join [LF] (currentBlock st)]
  else responseBlocks st.

(** A pattern that only matches text starting with the head of a chrome
    line, hence with a character that is no white space. *)
Definition heads_chrome (r : pattern) : Prop :=
  forall prev s n,
    m_pat r prev s = Some n ->
    starts_chrome s = true /\ exists c t, s = c :: t /\ is_ws c = false.

(** The class of [/\n{3,}/]. *)
Abbreviation is_nl := (one_of [LF]).


(** No cursor of [s] starts three newlines. *)
Fixpoint short_runs (s : jsstring) : bool :=
  (span is_nl s <? 3)%nat
  && match s with
     | [] => true
     | _ :: t => short_runs t
     end.

End Notions.

(** ** Facts about strings and the matcher *)

Module RegexFacts.
Import JS Gemini Notions.

(** *** Backtracking *)

Lemma first_down_Some {A} (f : nat -> option A) (lo d : nat) (a : A) :
  first_down f lo d = Some a ->
  exists k, (lo <= k <= lo + d)%nat /\ f k = Some a
            /\ forall k', (k < k' <= lo + d)%nat -> f k' = None.
Proof.
  induction d as [|d IH]; simpl.
  - destruct (f (lo + 0)%nat) as [b|] eqn:Hf; [|discriminate].
    intros [= ->]. exists (lo + 0)%nat. split; [lia|]. split; [exact Hf|].
    intros k' Hk'. lia.
  - destruct (f (lo + S d)%nat) as [b|] eqn:Hf.
    + intros [= ->]. exists (lo + S d)%nat. split; [lia|]. split; [exact Hf|].
      intros k' Hk'. lia.
    + intros H. destruct (IH H) as (k & Hk & Hfk & Hgt).
      exists k. split; [lia|]. split; [exact Hfk|].
      intros k' Hk'. destruct (Nat.eq_dec k' (lo + S d)%nat) as [->|Hne].
      * exact Hf.
      * apply Hgt. lia.
Qed.

Lemma first_down_None {A} (f : nat -> option A) (lo d : nat) :
  first_down f lo d = None <->
  forall k, (lo <= k <= lo + d)%nat -> f k = None.
Proof.
  induction d as [|d IH]; simpl.
  - destruct (f (lo + 0)%nat) as [b|] eqn:Hf; split; try discriminate.
    + intros H. rewrite <- Hf. apply H. lia.
    + intros _ k Hk. replace k with (lo + 0)%nat by lia. exact Hf.
    + reflexivity.
  - destruct (f (lo + S d)%nat) as [b|] eqn:Hf; split; try discriminate.
    + intros H. rewrite <- Hf. apply H. lia.
    + intros H k Hk. destruct (Nat.eq_dec k (lo + S d)%nat) as [->|Hne].
      * exact Hf.
      * apply (proj1 IH H). lia.
    + intros H. apply IH. intros k Hk. apply H. lia.
Qed.

Lemma first_down_top {A} (f : nat -> option A) (lo d : nat) (a : A) :
  f (lo + d)%nat = Some a -> first_down f lo d = Some a.
Proof. intros H. destruct d; simpl; now rewrite H. Qed.

(** *** Spans of a class *)

Lemma span_le (p : Z -> bool) (s : jsstring) : (span p s <= length s)%nat.
Proof.
  induction s as [|c t IH]; simpl; [lia|]. destruct (p c); simpl; lia.
Qed.

Lemma span_skipn (p : Z -> bool) (s : jsstring) :
  skipn (span p s) s = drop_while p s.
Proof.
  induction s as [|c t IH]; simpl; [reflexivity|].
  destruct (p c); simpl; auto.
Qed.

Lemma span_firstn (p : Z -> bool) (s : jsstring) (k : nat) :
  (k <= span p s)%nat -> forallb p (firstn k s) = true.
Proof.
  revert k. induction s as [|c t IH]; intros k Hk; simpl in *.
  - now destruct k.
  - destruct k as [|k]; [reflexivity|]. simpl.
    destruct (p c); simpl in *; [apply IH; lia | lia].
Qed.

Lemma span_nth (p : Z -> bool) (s : jsstring) (k : nat) :
  (k < span p s)%nat -> exists c t, skipn k s = c :: t /\ p c = true.
Proof.
  revert k. induction s as [|c t IH]; intros k Hk; simpl in *; [lia|].
  destruct (p c) eqn:Hp; [|lia].
  destruct k as [|k]; simpl; [eauto|]. apply IH. lia.
Qed.

Lemma span_all (p : Z -> bool) (s : jsstring) :
  span p s = length s <-> forallb p s = true.
Proof.
  induction s as [|c t IH]; simpl; [tauto|].
  pose proof (span_le p t). destruct (p c); simpl.
  - rewrite <- IH. split; intros; lia.
  - split; [lia | discriminate].
Qed.

Lemma span_app_stop (p : Z -> bool) (a b : jsstring) :
  at_eos b = true \/ (exists c t, b = c :: t /\ p c = false) ->
  forallb p a = true -> span p (a ++ b) = length a.
Proof.
  intros Hb. induction a as [|c t IH]; simpl.
  - intros _. destruct Hb as [Hb|(c & t & -> & Hc)].
    + destruct b; [reflexivity | discriminate].
    + simpl. now rewrite Hc.
  - destruct (p c); simpl; [|discriminate]. intros H. now rewrite IH.
Qed.

Lemma drop_while_head (p : Z -> bool) (s : jsstring) (c : Z) (t : jsstring) :
  drop_while p s = c :: t -> p c = false.
Proof.
  induction s as [|a s IH]; simpl; [discriminate|].
  destruct (p a) eqn:Hp; [exact IH|]. now intros [= <- <-].
Qed.

Lemma drop_while_id (p : Z -> bool) (s : jsstring) :
  match s with [] => True | c :: _ => p c = false end -> drop_while p s = s.
Proof. destruct s as [|c t]; simpl; [reflexivity|]. now intros ->. Qed.


(** *** Literals *)


Lemma strip_prefix_eqb (l s s' : jsstring) :
  strip_prefix Z.eqb l s = Some s' <-> s = l ++ s'.
Proof.
  revert s. induction l as [|a l IH]; intros s; simpl.
  - split; [now intros [= ->] | now intros ->].
  - destruct s as [|c t]; [split; discriminate|].
    destruct (Z.eqb_spec a c) as [->|Hne].
    + rewrite IH. split; [now intros -> | now intros [= ->]].
    + split; [discriminate | intros [= -> _]; contradiction].
Qed.

Lemma strip_prefix_head (same : Z -> Z -> bool) (a : Z) (l s s' : jsstring) :
  strip_prefix same (a :: l) s = Some s' ->
  exists c t, s = c :: t /\ same a c = true.
Proof.
  simpl. destruct s as [|c t]; [discriminate|].
  destruct (same a c) eqn:Hs; [eauto | discriminate].
Qed.

Lemma startsWith_app (s p : jsstring) :
  startsWith s p = true <-> exists t, s = p ++ t.
Proof.
  revert s. induction p as [|a p IH]; intros s; simpl.
  - split; [intros _; now exists s | reflexivity].
  - destruct s as [|c t]; [split; [discriminate | now intros (? & ?)]|].
    rewrite andb_true_iff, IH, Z.eqb_eq. split.
    + intros (-> & u & ->). now exists u.
    + intros (u & [= -> ->]). split; [reflexivity | now exists u].
Qed.

(** *** Inversion of a match, item by item *)

Lemma m_pat_Lit (l : jsstring) (r : pattern) prev (s : jsstring) (n : nat) :
  m_pat (Lit l :: r) prev s = Some n ->
  exists s' n', s = l ++ s' /\ n = (length l + n')%nat
                /\ m_pat r (last_read prev l) s' = Some n'.
Proof.
  simpl. destruct (strip_prefix Z.eqb l s) as [s'|] eqn:Hp; [|discriminate].
  apply strip_prefix_eqb in Hp. subst s.
  rewrite firstn_app, firstn_all, Nat.sub_diag, app_nil_r.
  destruct (m_pat r (last_read prev l) s') as [n'|] eqn:Hm; [|discriminate].
  intros [= <-]. eauto.
Qed.

Lemma m_pat_LitI_head (a : Z) (l : jsstring) (r : pattern) prev
  (s : jsstring) (n : nat) :
  m_pat (LitI (a :: l) :: r) prev s = Some n ->
  exists c t, s = c :: t /\ canon a = canon c.
Proof.
  cbn [m_pat].
  destruct (strip_prefix _ (a :: l) s) as [s'|] eqn:Hp; [|discriminate].
  intros _. destruct (strip_prefix_head _ _ _ _ _ Hp) as (c & t & -> & Hc).
  exists c, t. split; [reflexivity|]. now apply Z.eqb_eq.
Qed.

Lemma m_pat_Cls (p : Z -> bool) (q : quant) (r : pattern) prev
  (s : jsstring) (n : nat) :
  m_pat (Cls p q :: r) prev s = Some n ->
  exists k n',
    (q_min q <= k <= q_cap q (span p s))%nat /\ n = (k + n')%nat
    /\ m_pat r (last_read prev (firstn k s)) (skipn k s) = Some n'
    /\ forall k', (k < k' <= q_cap q (span p s))%nat ->
                  m_pat r (last_read prev (firstn k' s)) (skipn k' s) = None.
Proof.
  cbn [m_pat]. cbv zeta.
  destruct (Nat.ltb_spec (q_cap q (span p s)) (q_min q)) as [Hlt|Hge];
    [discriminate|].
  intros H. apply first_down_Some in H.
  destruct H as (k & Hk & Hf & Hgt).
  destruct (m_pat r (last_read prev (firstn k s)) (skipn k s)) as [n'|] eqn:Hm;
    [|discriminate].
  injection Hf as <-. exists k, n'. split; [lia|]. split; [reflexivity|].
  split; [exact Hm|]. intros k' Hk'.
  specialize (Hgt k' ltac:(lia)).
  destruct (m_pat r (last_read prev (firstn k' s)) (skipn k' s));
    [discriminate | reflexivity].
Qed.

Lemma m_pat_Cls_None (p : Z -> bool) (q : quant) (r : pattern) prev
  (s : jsstring) :
  (forall k, (q_min q <= k <= q_cap q (span p s))%nat ->
             m_pat r (last_read prev (firstn k s)) (skipn k s) = None) ->
  m_pat (Cls p q :: r) prev s = None.
Proof.
  intros H. cbn [m_pat]. cbv zeta.
  destruct (Nat.ltb_spec (q_cap q (span p s)) (q_min q)) as [Hlt|Hge];
    [reflexivity|].
  apply first_down_None. intros k Hk. rewrite H by lia. reflexivity.
Qed.

Lemma q_cap_le (q : quant) (avail : nat) : (q_cap q avail <= avail)%nat.
Proof. destruct q; cbn [q_cap]; lia. Qed.

(** A class at the head of a pattern: the match starts inside the class. *)
Lemma m_pat_Cls_head (p : Z -> bool) (q : quant) (r : pattern) prev
  (s : jsstring) (n : nat) :
  (0 < q_min q)%nat ->
  m_pat (Cls p q :: r) prev s = Some n ->
  exists c t, s = c :: t /\ p c = true.
Proof.
  intros Hq H. apply m_pat_Cls in H. destruct H as (k & n' & Hk & _).
  pose proof (q_cap_le q (span p s)).
  destruct (span_nth p s 0 ltac:(lia)) as (c & t & Hs & Hc). eauto.
Qed.

Lemma m_pat_Bol (r : pattern) prev (s : jsstring) (n : nat) :
  m_pat (Bol :: r) prev s = Some n ->
  at_bol prev = true /\ m_pat r prev s = Some n.
Proof. simpl. destruct (at_bol prev); [auto | discriminate]. Qed.

Lemma m_pat_Eol (r : pattern) prev (s : jsstring) (n : nat) :
  m_pat (Eol :: r) prev s = Some n ->
  at_eol s = true /\ m_pat r prev s = Some n.
Proof. simpl. destruct (at_eol s); [auto | discriminate]. Qed.



(** *** Global replacement *)

Lemma all_cursors_here P prev s : all_cursors P prev s -> P prev s.
Proof. destruct s; simpl; tauto. Qed.

Lemma all_cursors_impl (P Q : option Z -> jsstring -> Prop) prev s :
  (forall prev' s', P prev' s' -> Q prev' s') ->
  all_cursors P prev s -> all_cursors Q prev s.
Proof.
  intros HPQ. revert prev. induction s as [|c t IH]; intros prev; simpl.
  - intros [H _]. auto.
  - intros [H Ht]. auto.
Qed.

Lemma all_cursors_and (P Q : option Z -> jsstring -> Prop) prev s :
  all_cursors P prev s -> all_cursors Q prev s ->
  all_cursors (fun prev' s' => P prev' s' /\ Q prev' s') prev s.
Proof.
  revert prev. induction s as [|c t IH]; intros prev; simpl.
  - intros [H _] [H' _]. auto.
  - intros [H Ht] [H' Ht']. auto.
Qed.

(** Where the pattern matches nowhere, nothing is replaced. *)
Lemma replace_from_no_match (r : pattern) (repl : jsstring) prev s :
  all_cursors (fun prev' s' => m_pat r prev' s' = None) prev s ->
  replace_from r repl O prev s = s.
Proof.
  revert prev. induction s as [|c t IH]; intros prev; simpl.
  - intros [-> _]. reflexivity.
  - intros [-> Ht]. now rewrite IH.
Qed.

Lemma replace_all_no_match (r : pattern) (repl s : jsstring) :
  all_cursors (fun prev' s' => m_pat r prev' s' = None) None s ->
  replace_all r repl s = s.
Proof. apply replace_from_no_match. Qed.

(** The characters of a match are dropped, the search resumes behind. *)
Lemma replace_from_skip (r : pattern) (repl : jsstring) (k : nat) prev s :
  (k <= length s)%nat ->
  replace_from r repl k prev s =
  replace_from r repl O (last_read prev (firstn k s)) (skipn k s).
Proof.
  revert k prev. induction s as [|c t IH]; intros k prev Hk; simpl in Hk.
  - replace k with O by lia. reflexivity.
  - destruct k as [|k]; [reflexivity|].
    cbn [replace_from firstn skipn]. rewrite IH by lia. reflexivity.
Qed.




(** A pattern that is one class: the replacement erases its members. *)
Lemma m_pat_class_once (p : Z -> bool) prev (s : jsstring) :
  m_pat [Cls p Once] prev s =
  match s with
  | c :: _ => if p c then Some 1%nat else None
  | [] => None
  end.
Proof.
  destruct s as [|c t]; [reflexivity|].
  cbn [m_pat span]. destruct (p c); reflexivity.
Qed.

Lemma replace_from_class_once (p : Z -> bool) prev (s : jsstring) :
  replace_from [Cls p Once] [] O prev s = List.filter (fun c => negb (p c)) s.
Proof.
  revert prev. induction s as [|c t IH]; intros prev.
  - reflexivity.
  - cbn [replace_from]. rewrite m_pat_class_once. cbn [List.filter].
    destruct (p c); simpl; rewrite IH; reflexivity.
Qed.

(** *** Lines *)

Lemma split_lines_nonempty (s : jsstring) : split_lines s <> [].
Proof.
  destruct s as [|c t]; simpl; [discriminate|].
  destruct (c =? LF); [discriminate|]. destruct (split_lines t); discriminate.
Qed.


Lemma split_lines_chars (s : jsstring) (l : jsstring) (c : Z) :
  In l (split_lines s) -> In c l -> In c s.
Proof.
  revert l. induction s as [|a t IH]; intros l; simpl.
  - intros [<-|[]]. auto.
  - destruct (a =? LF).
    + intros [<-|Hl]; [intros [] | eauto].
    + pose proof (split_lines_nonempty t).
      destruct (split_lines t) as [|l0 ls] eqn:Hs; [contradiction|].
      intros [<-|Hl] Hc.
      * destruct Hc as [->|Hc]; [auto|]. right. apply (IH l0); simpl; auto.
      * right. apply (IH l); simpl; auto.
Qed.

(** *** Trimming *)


Lemma trim_head (s : jsstring) (c : Z) (t : jsstring) :
  trim s = c :: t -> is_ws c = false.
Proof.
  unfold trim. intros H.
  assert (Hin : In c (rev (drop_while is_ws (rev (drop_while is_ws s))))).
  { rewrite H. now left. }
  destruct (drop_while is_ws s) as [|a u] eqn:Hd.
  - simpl in H. discriminate.
  - pose proof (drop_while_head _ _ _ _ Hd) as Ha.
    (* the first character survives the trimming of the end *)
    assert (Hrev : exists v, drop_while is_ws (rev (a :: u)) = v ++ [a]).
    { clear - Ha. simpl. generalize (rev u). intros w.
      induction w as [|b w IH]; simpl.
      - rewrite Ha. now exists [].
      - destruct (is_ws b).
        + exact IH.
        + now exists (b :: w). }
    destruct Hrev as (v & Hv). rewrite Hv, rev_app_distr in H. simpl in H.
    injection H as <- _. exact Ha.
Qed.

Lemma trim_last (s : jsstring) (c : Z) (t : jsstring) :
  trim s = t ++ [c] -> is_ws c = false.
Proof.
  unfold trim. intros H.
  apply (f_equal (@rev Z)) in H. rewrite rev_involutive, rev_app_distr in H.
  simpl in H. now apply drop_while_head in H.
Qed.

Lemma trim_fixed (s : jsstring) :
  match s with [] => True | c :: _ => is_ws c = false end ->
  match rev s with [] => True | c :: _ => is_ws c = false end ->
  trim s = s.
Proof.
  intros Hh Hl. unfold trim. rewrite (drop_while_id _ s Hh).
  rewrite (drop_while_id _ (rev s) Hl). apply rev_involutive.
Qed.

End RegexFacts.

(** ** The extraction loop *)

Module ScanFacts.
Import JS Gemini Notions RegexFacts.

Lemma MARKER_code : MARKER = [0x2726].
Proof. reflexivity. Qed.

(** A pattern anchored at the start of the input matches nowhere else. *)
Lemma search_Bos_later (r : pattern) (c : Z) (s : jsstring) :
  search (Bos :: r) (Some c) s = None.
Proof.
  revert c. induction s as [|a t IH]; intros c; simpl; [reflexivity|].
  now rewrite IH.
Qed.

Lemma search_Bos (r : pattern) (s : jsstring) :
  search (Bos :: r) None s =
  match m_pat r None s with
  | Some n => Some (O, n)
  | None => None
  end.
Proof.
  destruct s as [|c t]; simpl.
  - destruct (m_pat r None []); reflexivity.
  - destruct (m_pat r None (c :: t)); [reflexivity|].
    now rewrite search_Bos_later.
Qed.

(** A starred class at the end of a pattern takes its whole span. *)
Lemma m_pat_star_last (p : Z -> bool) prev (s : jsstring) :
  m_pat [Cls p Star] prev s = Some (span p s).
Proof.
  cbn [m_pat q_cap q_min]. cbv zeta.
  destruct (Nat.ltb_spec (span p s) 0) as [Hlt|_]; [lia|].
  apply first_down_top. rewrite Nat.sub_0_r. simpl. f_equal. lia.
Qed.

(** [/^✦\s*/] on a string that starts with the marker. *)
Lemma replace_marker (t : jsstring) :
  startsWith t MARKER = true ->
  replace_first re_marker [] t = drop_while is_ws (skipn 1 t).
Proof.
  rewrite MARKER_code. intros H. apply startsWith_app in H.
  destruct H as (u & ->). unfold replace_first, re_marker.
  rewrite search_Bos, MARKER_code.
  change (m_pat [Lit [0x2726]; Cls is_ws Star] None ([0x2726] ++ u))
    with (option_map (Nat.add 1) (m_pat [Cls is_ws Star] (Some 0x2726) u)).
  rewrite m_pat_star_last. simpl. apply span_skipn.
Qed.

(** [/^[\s│─╭╮╰╯]*$/] holds of the strings made of these characters. *)
Lemma matches_garbage (t : jsstring) :
  matches re_garbage t = forallb border_or_ws t.
Proof.
  unfold matches, re_garbage. rewrite search_Bos.
  fold border_or_ws.
  change (either is_ws (one_of (utf16 "│─╭╮╰╯"))) with border_or_ws.
  destruct (forallb border_or_ws t) eqn:Hall.
  - apply span_all in Hall.
    assert (H : m_pat [Cls border_or_ws Star; Eos] None t = Some (length t)).
    { cbn [m_pat q_cap q_min]. cbv zeta.
      destruct (Nat.ltb_spec (span border_or_ws t) 0) as [Hlt|_]; [lia|].
      apply first_down_top. rewrite Nat.sub_0_r, Nat.add_0_l, Hall.
      rewrite skipn_all. simpl. f_equal. lia. }
    now rewrite H.
  - assert (H : m_pat [Cls border_or_ws Star; Eos] None t = None).
    { apply m_pat_Cls_None. intros k Hk. cbn [q_cap] in Hk.
      assert (Hlt : (span border_or_ws t < length t)%nat).
      { pose proof (span_le border_or_ws t).
        destruct (Nat.eq_dec (span border_or_ws t) (length t)) as [He|Hne];
          [|lia].
        apply span_all in He. congruence. }
      cbn [m_pat]. destruct (skipn k t) as [|c u] eqn:Hs; [|reflexivity].
      apply (f_equal (@length Z)) in Hs. rewrite length_skipn in Hs.
      simpl in Hs. lia. }
    now rewrite H.
Qed.

Lemma keeps_kept_line (line : jsstring) : keeps (trim line) = kept_line line.
Proof.
  unfold keeps, kept_line. rewrite matches_garbage. apply andb_comm.
Qed.

Lemma collect_blocks_finish (lines : list jsstring) :
  collect_blocks lines = finish (fold_left scan_line lines scan_init).
Proof. reflexivity. Qed.

(** One iteration, case by case. *)
Lemma scan_line_marker (st : scan) (line : jsstring) :
  is_marker_line line = true ->
  scan_line st line = Scan (finish st) true [after_marker line].
Proof.
  unfold is_marker_line, scan_line, finish, after_marker. intros H.
  rewrite H, replace_marker by exact H. reflexivity.
Qed.

Lemma scan_line_outside (st : scan) (line : jsstring) :
  is_marker_line line = false -> inResponse st = false ->
  scan_line st line = st.
Proof.
  unfold is_marker_line, scan_line. intros -> ->. simpl.
  now rewrite andb_false_r.
Qed.

Lemma scan_line_inside (st : scan) (line : jsstring) :
  is_marker_line line = false -> inResponse st = true ->
  scan_line st line =
  Scan (responseBlocks st) true (currentBlock st ++ block_entry line).
Proof.
  unfold is_marker_line, scan_line, block_entry, is_blank_line.
  intros -> Hin. rewrite Hin, keeps_kept_line. simpl.
  destruct (trim line) as [|c t] eqn:Ht; simpl.
  - reflexivity.
  - destruct (kept_line line); [reflexivity|].
    rewrite app_nil_r. destruct st; simpl in *. now subst.
Qed.

(** The lines before the first marker line leave the state alone. *)
Lemma scan_preamble (pre : list jsstring) (st : scan) :
  Forall (fun l => is_marker_line l = false) pre -> inResponse st = false ->
  fold_left scan_line pre st = st.
Proof.
  induction 1 as [|l pre Hl _ IH]; intros Hout; simpl; [reflexivity|].
  rewrite scan_line_outside by assumption. auto.
Qed.

(** The lines behind a marker line add their entries to the block. *)
Lemma scan_body (body : list jsstring) (st : scan) :
  Forall (fun l => is_marker_line l = false) body -> inResponse st = true ->
  fold_left scan_line body st =
  Scan (responseBlocks st) true (currentBlock st ++ flat_map block_entry body).
Proof.
  intros Hbody. revert st.
  induction Hbody as [|l body Hl _ IH]; intros st Hin; simpl.
  - rewrite app_nil_r. destruct st; simpl in *. now subst.
  - rewrite scan_line_inside by assumption. rewrite IH by reflexivity.
    simpl. now rewrite <- app_assoc.
Qed.

Lemma scan_segment (seg : segment) (st : scan) :
  well_formed_segment seg ->
  finish (fold_left scan_line (segment_lines seg) st)
  = finish st ++ [block_text seg].
Proof.
  intros [Hm Hbody]. unfold segment_lines. simpl.
  rewrite scan_line_marker by exact Hm.
  rewrite scan_body by first [assumption | reflexivity]. reflexivity.
Qed.

Lemma scan_segment_state (seg : segment) (st : scan) :
  well_formed_segment seg ->
  inResponse (fold_left scan_line (segment_lines seg) st) = true.
Proof.
  intros [Hm Hbody]. unfold segment_lines. simpl.
  rewrite scan_line_marker by exact Hm.
  rewrite scan_body by first [assumption | reflexivity]. reflexivity.
Qed.

Lemma scan_segments (segs : list segment) (st : scan) :
  Forall well_formed_segment segs ->
  finish (fold_left scan_line (concat (map segment_lines segs)) st)
  = finish st ++ map block_text segs.
Proof.
  intros Hsegs. revert st.
  induction Hsegs as [|seg segs Hseg _ IH]; intros st; cbn [map concat].
  - simpl. now rewrite app_nil_r.
  - rewrite fold_left_app, IH, scan_segment by exact Hseg.
    now rewrite <- app_assoc.
Qed.

(** The blocks of a text cut into a preamble and segments. *)
Lemma collect_blocks_segments (pre : list jsstring) (segs : list segment) :
  Forall (fun l => is_marker_line l = false) pre ->
  Forall well_formed_segment segs ->
  collect_blocks (pre ++ concat (map segment_lines segs))
  = map block_text segs.
Proof.
  intros Hpre Hsegs. rewrite collect_blocks_finish, fold_left_app.
  rewrite (scan_preamble pre scan_init) by first [assumption | reflexivity].
  now rewrite scan_segments.
Qed.

(** Every list of lines is cut this way, in one way only; there are
    segments exactly when there is a marker line. *)
Lemma lines_segments (lines : list jsstring) :
  exists pre segs,
    lines = pre ++ concat (map segment_lines segs)
    /\ Forall (fun l => is_marker_line l = false) pre
    /\ Forall well_formed_segment segs
    /\ (Exists (fun l => is_marker_line l = true) lines -> segs <> []).
Proof.
  induction lines as [|l lines (pre & segs & Heq & Hpre & Hsegs & Hex)].
  - exists [], []. repeat split; auto. intros H. inversion H.
  - destruct (is_marker_line l) eqn:Hl.
    + exists [], ((l, pre) :: segs). simpl. repeat split; auto.
      * now rewrite Heq.
      * constructor; [split; auto | exact Hsegs].
    + exists (l :: pre), segs. simpl. repeat split; auto.
      * now rewrite Heq.
      * intros H. inversion H; subst; [congruence | auto].
Qed.

End ScanFacts.

(** ** Properties of the adapter object *)

Module AdapterProps.
Import JS Gemini Notions.

Lemma not_false_disabled (options : option SendOptions) :
  not_false (opt_continueSession options) = negb (continuation_disabled options).
Proof.
  destruct options as [[[[|]|] d]|]; reflexivity.
Qed.

(** C7.  [getCommand] builds an argv array: it is
    [['gemini', '--resume', 'latest', p]] when a session exists and
    continuation is not disabled and [['gemini', p]] otherwise; in both
    cases the prompt is the last element of the array, unmodified, and
    no other element is built from it. *)
Theorem getCommand_argv (this : adapter) (p : jsstring)
  (options : option SendOptions) :
  getCommand this p options =
    (if hasActiveSession this && negb (continuation_disabled options)
     then [utf16 "gemini"; utf16 "--resume"; utf16 "latest"; p]
     else [utf16 "gemini"; p])
  /\ last (getCommand this p options) = Some p
  /\ removelast (getCommand this p options) =
       removelast (getCommand this [] options).
Proof.
  unfold getCommand. rewrite not_false_disabled.
  destruct (hasActiveSession this), (continuation_disabled options);
    simpl; repeat split; reflexivity.
Qed.

(** The flag after a send depends on the exit code alone. *)
Lemma send_outcome run cwd (this : adapter) (prompt : jsstring)
  (options : option SendOptions) :
  match run (utf16 "gemini") (tl (getCommand this prompt options))
          (send_cwd cwd options) with
  | inl e => send run cwd this prompt options = (this, inl e)
  | inr result =>
      if exitCode result =? 0
      then send run cwd this prompt options =
             ({| hasActiveSession := true |}, inr (trim (stdout result)))
      else exists msg,
             send run cwd this prompt options = (this, inl (MkError msg))
             /\ msg = utf16 "Gemini CLI exited with code "
                        ++ show_int (exitCode result) ++ utf16 ": "
                        ++ or_else (trim (stderr result))
                             (or_else (trim (stdout result))
                                (utf16 "Unknown error"))
  end.
Proof.
  unfold send.
  destruct (run _ _ _) as [e|result]; [reflexivity|].
  destruct (exitCode result =? 0); simpl; eauto.
Qed.

(** C8, the claim as stated fails: [setHasSession(false)] clears the flag
    of an adapter that has a session, and it is not [resetContext]. *)
Lemma setHasSession_clears_flag :
  let run := fun _ _ _ => inl (MkError []) in
  let this := {| hasActiveSession := true |} in
  hasActiveSession this = true
  /\ hasActiveSession (after_call run [] this (CallSetHasSession false)) = false
  /\ CallSetHasSession false <> CallResetContext.
Proof.
  simpl. repeat split; discriminate.
Qed.

(** C8, amended.  Over all the calls of the adapter: the flag goes from
    false to true only on a successful send (exit code zero) or on
    [setHasSession(true)], and every successful send leaves it true; it
    goes from true to false only on [resetContext] or on
    [setHasSession(false)], and [resetContext] leaves it false; a send that
    exits with a non-zero code leaves the adapter as it was and rejects. *)
Theorem continuation_flag_lifecycle run cwd (this : adapter) (c : call) :
  let this' := after_call run cwd this c in
  (hasActiveSession this = false -> hasActiveSession this' = true ->
   successful_send run cwd this c \/ c = CallSetHasSession true)
  /\ (successful_send run cwd this c -> hasActiveSession this' = true)
  /\ (hasActiveSession this = true -> hasActiveSession this' = false ->
      c = CallResetContext \/ c = CallSetHasSession false)
  /\ (c = CallResetContext -> hasActiveSession this' = false)
  /\ (forall prompt options result,
        c = CallSend prompt options ->
        run (utf16 "gemini") (tl (getCommand this prompt options))
          (send_cwd cwd options) = inr result ->
        exitCode result <> 0 ->
        this' = this
        /\ exists e, snd (send run cwd this prompt options) = inl e).
Proof.
  cbv zeta. repeat split.
  - intros Hoff Hon. destruct c; simpl in Hon; try congruence.
    + left. pose proof (send_outcome run cwd this prompt options) as H.
      destruct (run _ _ _) as [e|result] eqn:Hrun.
      * rewrite H in Hon. simpl in Hon. congruence.
      * destruct (exitCode result =? 0) eqn:Hcode.
        -- exists prompt, options, result. repeat split; auto.
           now apply Z.eqb_eq.
        -- destruct H as (msg & H & _). rewrite H in Hon. simpl in Hon.
           congruence.
    + right. unfold setHasSession in Hon. simpl in Hon. now subst value.
  - intros (prompt & options & result & -> & Hrun & Hcode). simpl.
    pose proof (send_outcome run cwd this prompt options) as H.
    rewrite Hrun, Hcode in H. simpl in H. now rewrite H.
  - intros Hon Hoff. destruct c; simpl in Hoff; try congruence.
    + pose proof (send_outcome run cwd this prompt options) as H.
      destruct (run _ _ _) as [e|result].
      * rewrite H in Hoff. simpl in Hoff. congruence.
      * destruct (exitCode result =? 0).
        -- rewrite H in Hoff. discriminate.
        -- destruct H as (msg & H & _). rewrite H in Hoff. simpl in Hoff.
           congruence.
    + now left.
    + right. unfold setHasSession in Hoff. simpl in Hoff. now subst value.
  - intros ->. reflexivity.
  - subst c. simpl.
    pose proof (send_outcome run cwd this prompt options) as Hs.
    rewrite H0 in Hs. apply Z.eqb_neq in H1. rewrite H1 in Hs.
    destruct Hs as (msg & Hs & _). now rewrite Hs.
  - subst c.
    pose proof (send_outcome run cwd this prompt options) as Hs.
    rewrite H0 in Hs. apply Z.eqb_neq in H1. rewrite H1 in Hs.
    destruct Hs as (msg & Hs & _). rewrite Hs. simpl. eauto.
Qed.

(** A run of the lifecycle: a failed send on a fresh adapter leaves the
    flag off, a successful one turns it on, [resetContext] turns it off. *)
Lemma continuation_flag_lifecycle_witness :
  let ok := fun _ _ _ =>
    inr {| exitCode := 0; stdout := utf16 "hi"; stderr := [] |} in
  let ko := fun _ _ _ =>
    inr {| exitCode := 1; stdout := []; stderr := utf16 "auth error" |} in
  let ask := CallSend (utf16 "hello") None in
  after_call ko [] new_adapter ask = new_adapter
  /\ hasActiveSession (after_call ok [] new_adapter ask) = true
  /\ hasActiveSession
       (after_call ok [] (after_call ok [] new_adapter ask) CallResetContext)
     = false.
Proof.
  intros ok ko ask. split; [|split].
  - apply (continuation_flag_lifecycle ko [] new_adapter ask)
      with (prompt := utf16 "hello") (options := None)
           (result := {| exitCode := 1; stdout := [];
                         stderr := utf16 "auth error" |});
      [reflexivity | reflexivity | discriminate].
  - apply (continuation_flag_lifecycle ok [] new_adapter ask).
    exists (utf16 "hello"), None,
      {| exitCode := 0; stdout := utf16 "hi"; stderr := [] |}.
    repeat split; reflexivity.
  - apply (continuation_flag_lifecycle ok []
             (after_call ok [] new_adapter ask) CallResetContext).
    reflexivity.
Defined.

Lemma occurs_in_app_r (x a b : jsstring) : occurs_in x b -> occurs_in x (a ++ b).
Proof.
  intros (pre & post & ->). exists (a ++ pre), post.
  now rewrite <- app_assoc.
Qed.

Lemma occurs_in_app_l (x a b : jsstring) : occurs_in x a -> occurs_in x (a ++ b).
Proof.
  intros (pre & post & ->). exists pre, (post ++ b).
  now rewrite <- !app_assoc.
Qed.

Lemma occurs_in_refl (x : jsstring) : occurs_in x x.
Proof. exists [], []. now rewrite app_nil_r. Qed.

Lemma occurs_in_nil (s : jsstring) : occurs_in [] s.
Proof. exists [], s. reflexivity. Qed.

(** C9.  When the one-shot invocation exits with a non-zero code, [send]
    rejects with an error whose message contains the tool's name (it
    begins with [displayName], 'Gemini CLI', hence with [name], 'gemini',
    the case of the letters apart) and the trimmed standard error, and
    the trimmed standard output when the trimmed standard error is empty;
    with exit code 1 and standard error 'auth error' the message contains
    'auth error'. *)
Theorem send_nonzero_exit_message run cwd (this : adapter)
  (prompt : jsstring) (options : option SendOptions) (result : CommandResult) :
  run (utf16 "gemini") (tl (getCommand this prompt options))
    (send_cwd cwd options) = inr result ->
  exitCode result <> 0 ->
  exists msg,
    snd (send run cwd this prompt options) = inl (MkError msg)
    /\ occurs_in displayName msg
    /\ starts_with_ci msg name = true
    /\ occurs_in (trim (stderr result)) msg
    /\ (trim (stderr result) = [] -> occurs_in (trim (stdout result)) msg)
    /\ (exitCode result = 1 -> stderr result = utf16 "auth error" ->
        occurs_in (utf16 "auth error") msg).
Proof.
  intros Hrun Hcode.
  pose proof (send_outcome run cwd this prompt options) as Hs.
  rewrite Hrun in Hs. apply Z.eqb_neq in Hcode. rewrite Hcode in Hs.
  destruct Hs as (msg & Hs & Hmsg). exists msg. rewrite Hs. simpl.
  assert (Herr : occurs_in (trim (stderr result)) msg).
  { subst msg. do 3 apply occurs_in_app_r.
    destruct (trim (stderr result)) as [|c t]; simpl.
    - apply occurs_in_nil.
    - apply occurs_in_refl. }
  repeat split; auto.
  - subst msg. apply occurs_in_app_l. exists [], (utf16 " exited with code ").
    reflexivity.
  - subst msg. reflexivity.
  - intros Hempty. subst msg. do 3 apply occurs_in_app_r. rewrite Hempty.
    simpl. destruct (trim (stdout result)) as [|c t]; simpl.
    + apply occurs_in_nil.
    + apply occurs_in_refl.
  - intros _ Hstderr. rewrite Hstderr in Herr. exact Herr.
Qed.

(** Exit code 1 with standard error 'auth error'. *)
Lemma send_nonzero_exit_message_witness :
  let result := {| exitCode := 1; stdout := []; stderr := utf16 "auth error" |} in
  let run := fun _ _ _ => inr result in
  exists msg,
    snd (send run [] new_adapter (utf16 "hello") None) = inl (MkError msg)
    /\ occurs_in displayName msg
    /\ occurs_in (utf16 "auth error") msg.
Proof.
  intros result run.
  destruct (send_nonzero_exit_message run [] new_adapter (utf16 "hello") None
              result eq_refl) as (msg & Hsend & Hname & _ & _ & _ & Hauth).
  - discriminate.
  - exists msg. repeat split; auto.
Defined.

End AdapterProps.

(** ** Properties of the configuration loader *)

Module ConfigProps.
Import JS Config.

Section Loader.

Context {number : Type}.
Variable homedir : jsstring.
Variable path_join : list jsstring -> jsstring.
Variable existsSync : jsstring -> bool.
Variable readFileSync : jsstring -> throws jsstring.
Variable JSON_parse : jsstring -> throws (jsval number).

Abbreviation DEFAULTS := (@DEFAULT_CONFIG number).
Abbreviation load :=
  (@loadConfig number homedir path_join existsSync readFileSync JSON_parse).
Abbreviation configPath := (getConfigPath homedir path_join).

Lemma spread_default : VObject (own_props DEFAULTS) = DEFAULTS.
Proof. reflexivity. Qed.

Lemma default_tools_claude :
  is_Some (@DEFAULT_TOOLS number !! utf16 "claude").
Proof. unfold DEFAULT_TOOLS. rewrite lookup_insert_eq. eauto. Qed.

Lemma default_tools_gemini :
  is_Some (@DEFAULT_TOOLS number !! utf16 "gemini").
Proof.
  unfold DEFAULT_TOOLS.
  rewrite lookup_insert_ne by (vm_compute; discriminate).
  rewrite lookup_insert_eq. eauto.
Qed.

Lemma default_has_tools :
  own_props DEFAULTS !! utf16 "tools" = Some (VObject DEFAULT_TOOLS).
Proof.
  simpl. rewrite lookup_insert_ne by (vm_compute; discriminate).
  now rewrite lookup_insert_eq.
Qed.

Lemma default_defaultTool :
  own_props DEFAULTS !! utf16 "defaultTool" = Some (VString (utf16 "claude")).
Proof. simpl. now rewrite lookup_insert_eq. Qed.

(** The tools of a merged configuration: the user's entries over the
    defaults. *)
Lemma merged_tools_lookup (loaded_tools : jsval number) (name : jsstring) :
  is_Some (@DEFAULT_TOOLS number !! name) ->
  is_Some (spread2 (VObject DEFAULT_TOOLS) loaded_tools !! name).
Proof.
  intros Hdef. unfold spread2. apply lookup_union_is_Some. now right.
Qed.

(** C10.  [loadConfig] returns, whatever the file system and [JSON.parse]
    do; the configuration it returns has the tools 'claude' and 'gemini';
    when the file does not exist, cannot be read or does not parse, the
    configuration is the default one, whose [defaultTool] is 'claude';
    and when the file parses to an object, its [tools] are merged over the
    defaults: an entry of the file wins, a default entry the file does not
    name stays. *)
Theorem loadConfig_resilient :
  exists r,
    load = inr r
    /\ has_tool (config r) (utf16 "claude")
    /\ has_tool (config r) (utf16 "gemini")
    /\ (existsSync configPath = false
        \/ (exists e, (let* content := readFileSync configPath in
                       JSON_parse content) = inl e) ->
        config r = DEFAULTS
        /\ own_props (config r) !! utf16 "defaultTool"
           = Some (VString (utf16 "claude")))
    /\ (forall content loaded user_tools,
          existsSync configPath = true ->
          readFileSync configPath = inr content ->
          JSON_parse content = inr (VObject loaded) ->
          loaded !! utf16 "tools" = Some (VObject user_tools) ->
          own_props (config r) !! utf16 "tools"
          = Some (VObject (user_tools ∪ DEFAULT_TOOLS))).
Proof.
  assert (Hdefault : forall w,
    has_tool (config {| warnings := w; config := VObject (own_props DEFAULTS) |})
      (utf16 "claude")
    /\ has_tool (config {| warnings := w; config := VObject (own_props DEFAULTS) |})
         (utf16 "gemini")
    /\ config {| warnings := w; config := VObject (own_props DEFAULTS) |}
       = DEFAULTS
    /\ own_props
         (config {| warnings := w; config := VObject (own_props DEFAULTS) |})
       !! utf16 "defaultTool" = Some (VString (utf16 "claude"))).
  { intros w. cbn [config]. rewrite spread_default.
    repeat split; auto using default_defaultTool;
      exists DEFAULT_TOOLS; split;
      auto using default_has_tools, default_tools_claude, default_tools_gemini. }
  unfold loadConfig.
  destruct (existsSync configPath) eqn:Hex; cbn [negb].
  2:{ eexists. split; [reflexivity|].
      destruct (Hdefault []) as (? & ? & ? & ?). repeat split; auto.
      intros ? ? ? ?. discriminate. }
  unfold load_from_file.
  destruct (readFileSync configPath) as [e|content] eqn:Hread;
    cbn [bind try_catch].
  { eexists. split; [reflexivity|].
    destruct (Hdefault [utf16 "Failed to load config, using defaults"])
      as (? & ? & ? & ?).
    repeat split; auto. intros ? ? ? ?. discriminate. }
  destruct (JSON_parse content) as [e|loaded] eqn:Hparse;
    cbn [bind try_catch].
  { eexists. split; [reflexivity|].
    destruct (Hdefault [utf16 "Failed to load config, using defaults"])
      as (? & ? & ? & ?).
    repeat split; auto. intros ? ? ? ? Hc. injection Hc as <-. congruence. }
  destruct (get_tools loaded) as [e|loaded_tools] eqn:Htools;
    cbn [bind try_catch ret].
  { eexists. split; [reflexivity|].
    destruct (Hdefault [utf16 "Failed to load config, using defaults"])
      as (? & ? & ? & ?).
    repeat split; auto.
    intros ? ? ? ? Hc Hp. injection Hc as <-. rewrite Hparse in Hp.
    injection Hp as ->. discriminate. }
  eexists. split; [reflexivity|]. cbn [config own_props].
  split; [|split; [|split]].
  - exists (spread2 (VObject DEFAULT_TOOLS) loaded_tools).
    split; [apply lookup_insert_eq|].
    apply merged_tools_lookup, default_tools_claude.
  - exists (spread2 (VObject DEFAULT_TOOLS) loaded_tools).
    split; [apply lookup_insert_eq|].
    apply merged_tools_lookup, default_tools_gemini.
  - intros [?|[e ?]]; discriminate.
  - intros c l ut _ Hc Hp Hl. injection Hc as <-. rewrite Hparse in Hp.
    injection Hp as ->. cbn [get_tools ret] in Htools. rewrite Hl in Htools.
    injection Htools as <-. rewrite lookup_insert_eq. reflexivity.
Qed.

End Loader.

(** A file that sets [defaultTool] to 'gemini' and overrides the tool
    'claude': the loader returns, keeps both tools, and the file's entry
    for 'claude' wins. *)
Lemma loadConfig_resilient_witness :
  let user_tools : gmap jsstring (jsval Z) :=
    <[utf16 "claude" := VNull]> ∅ in
  let file : gmap jsstring (jsval Z) :=
    <[utf16 "defaultTool" := VString (utf16 "gemini")]>
      (<[utf16 "tools" := VObject user_tools]> ∅) in
  let path_join := fun parts => join (utf16 "/") parts in
  let home := utf16 "/home/u" in
  exists r,
    loadConfig home path_join (fun _ => true) (fun _ => inr (utf16 "{}"))
      (fun _ => inr (VObject file)) = inr r
    /\ has_tool (config r) (utf16 "gemini")
    /\ own_props (config r) !! utf16 "tools"
       = Some (VObject (user_tools ∪ DEFAULT_TOOLS)).
Proof.
  intros user_tools file path_join home.
  destruct (loadConfig_resilient home path_join (fun _ => true)
              (fun _ => inr (utf16 "{}")) (fun _ => inr (VObject file)))
    as (r & Hload & _ & Hgemini & _ & Hmerge).
  exists r. split; [exact Hload|]. split; [exact Hgemini|].
  apply (Hmerge (utf16 "{}") file user_tools); reflexivity.
Defined.

End ConfigProps.

(** ** Properties of [cleanResponse] *)

Module CleanProps.
Import JS Gemini Notions RegexFacts ScanFacts.

(** C2.  On an output with spinner glyphs, box-drawing border lines, the
    tool status line '✓ ReadFile' and the marked block
    '✦ The answer is 42', [cleanResponse] returns exactly
    'The answer is 42': no white space at either end, no control
    character.  Two such outputs are checked, the second with escape
    sequences and with chrome behind the answer. *)
Theorem example_extraction :
  cleanResponse sample_output = utf16 "The answer is 42"
  /\ cleanResponse sample_output_ansi = utf16 "The answer is 42"
  /\ no_outer_space (cleanResponse sample_output) = true
  /\ no_control (cleanResponse sample_output) = true.
Proof. vm_compute. repeat split. Qed.

Lemma no_marker_Forall (lines : list jsstring) :
  existsb is_marker_line lines = false <->
  Forall (fun l => is_marker_line l = false) lines.
Proof.
  induction lines as [|l lines IH]; simpl.
  - split; auto.
  - rewrite orb_false_iff, IH. split.
    + intros [? ?]. now constructor.
    + intros H. inversion H; subst. auto.
Qed.

Lemma some_marker_Exists (lines : list jsstring) :
  existsb is_marker_line lines = true <->
  Exists (fun l => is_marker_line l = true) lines.
Proof.
  induction lines as [|l lines IH]; simpl.
  - split; [discriminate | intros H; inversion H].
  - rewrite orb_true_iff, IH. split.
    + intros [?|?]; [now left | now right].
    + intros H. inversion H; subst; auto.
Qed.

Lemma extract_no_marker (s : jsstring) :
  existsb is_marker_line (split_lines s) = false -> extract_response s = s.
Proof.
  intros Hno. apply no_marker_Forall in Hno. unfold extract_response.
  pose proof (collect_blocks_segments _ [] Hno (List.Forall_nil _)) as Hb.
  simpl in Hb. rewrite app_nil_r in Hb. now rewrite Hb.
Qed.

(** C4.  When no line of the chrome-stripped text is a marker line (no
    line's trimmed form starts with '✦'), no block is extracted:
    [cleanResponse] returns the chrome-stripped text (the result of
    the control-sequence, spinner, box-drawing and chrome-line stages)
    after the final cleanup alone. *)
Theorem no_marker_fallback (R : jsstring) :
  existsb is_marker_line (split_lines (strip_chrome R)) = false ->
  extract_response (strip_chrome R) = strip_chrome R
  /\ cleanResponse R =
     trim (strip_blank_lines (collapse_blank_runs
       (strip_ui (strip_box (strip_control R))))).
Proof.
  intros Hno. pose proof (extract_no_marker _ Hno) as Hext.
  split; [exact Hext|]. unfold cleanResponse. now rewrite Hext.
Qed.

(** A reply without a marker, between two chrome lines. *)
Lemma no_marker_fallback_witness :
  let R := text_of_lines
    ["Loaded cached credentials."; "Hello there"; EmptyString; "? for shortcuts"]%string in
  existsb is_marker_line (split_lines (strip_chrome R)) = false
  /\ cleanResponse R = utf16 "Hello there".
Proof.
  intros R.
  assert (H : existsb is_marker_line (split_lines (strip_chrome R)) = false)
    by (vm_compute; reflexivity).
  split; [exact H|].
  rewrite (proj2 (no_marker_fallback R H)). vm_compute. reflexivity.
Defined.

(** C3, the claim as stated fails: behind the marker line
    '✦ The answer is:' the line '42' is not empty, and it is no chrome
    (the chrome stages leave it as it is), but the block does not take
    it, because it has no more than two characters. *)
Lemma short_line_not_captured :
  let S := text_of_lines ["✦ The answer is:"; "42"]%string in
  strip_chrome S = S
  /\ split_lines S = [utf16 "✦ The answer is:"; utf16 "42"]
  /\ is_blank_line (utf16 "42") = false
  /\ strip_chrome (utf16 "42") = utf16 "42"
  /\ cleanResponse S = utf16 "The answer is:"
  /\ cleanResponse S <> text_of_lines ["The answer is:"; "42"]%string.
Proof. vm_compute. repeat split. discriminate. Qed.

(** C3, amended.  When some line of the chrome-stripped text is a marker
    line, the text is a preamble without marker lines followed by
    segments, each a marker line with the lines up to the next marker
    line; the result is the final cleanup of the blocks of the segments
    joined by one blank line.  A block is the text of its marker line
    (trimmed, marker and following white space removed) followed, in
    order, by an empty line for each blank line of the segment and by each
    line of the segment whose trimmed form has more than two characters
    and is not made of white space and border characters only; the other
    lines are dropped. *)
Theorem marker_block_extraction (R : jsstring) :
  existsb is_marker_line (split_lines (strip_chrome R)) = true ->
  exists (pre : list jsstring) (segs : list segment),
    split_lines (strip_chrome R) = pre ++ concat (map segment_lines segs)
    /\ Forall (fun l => is_marker_line l = false) pre
    /\ Forall well_formed_segment segs
    /\ segs <> []
    /\ collect_blocks (split_lines (strip_chrome R)) = map block_text segs
    /\ extract_response (strip_chrome R)
       = join [LF; LF] (map block_text segs)
    /\ cleanResponse R = final_cleanup (join [LF; LF] (map block_text segs)).
Proof.
  intros Hsome. apply some_marker_Exists in Hsome.
  destruct (lines_segments (split_lines (strip_chrome R)))
    as (pre & segs & Heq & Hpre & Hsegs & Hne).
  specialize (Hne Hsome). exists pre, segs.
  pose proof (collect_blocks_segments pre segs Hpre Hsegs) as Hb.
  rewrite <- Heq in Hb.
  assert (Hext : extract_response (strip_chrome R)
                 = join [LF; LF] (map block_text segs)).
  { unfold extract_response. rewrite Hb.
    destruct segs; [contradiction | reflexivity]. }
  repeat split; auto. unfold cleanResponse. now rewrite Hext.
Qed.

(** Two marked blocks behind a preamble; the second has a blank line, a
    short line that is dropped and a line that is kept. *)
Example two_blocks_cleaned :
  cleanResponse two_blocks
  = text_of_lines
      ["First answer"; EmptyString; "Second answer"; EmptyString; "with details"]%string.
Proof. vm_compute. reflexivity. Qed.

Lemma marker_block_extraction_witness :
  existsb is_marker_line (split_lines (strip_chrome two_blocks)) = true
  /\ exists (pre : list jsstring) (segs : list segment),
       split_lines (strip_chrome two_blocks)
       = pre ++ concat (map segment_lines segs)
       /\ segs <> []
       /\ cleanResponse two_blocks
          = final_cleanup (join [LF; LF] (map block_text segs)).
Proof.
  assert (H : existsb is_marker_line (split_lines (strip_chrome two_blocks))
              = true) by (vm_compute; reflexivity).
  split; [exact H|].
  destruct (marker_block_extraction two_blocks H)
    as (pre & segs & Heq & _ & _ & Hne & _ & _ & Hclean).
  exists pre, segs. auto.
Defined.

(** *** The final cleanup *)

Lemma is_nl_eqb (c : Z) : is_nl c = (c =? LF).
Proof. unfold one_of. simpl. apply orb_false_r. Qed.

(** [/\n{3,}/] matches at a cursor that starts three newlines or more, and
    takes the whole run. *)
Lemma m_blank_run prev (s : jsstring) :
  m_pat re_blank_run prev s =
  if (3 <=? span is_nl s)%nat then Some (span is_nl s) else None.
Proof.
  unfold re_blank_run. cbn [m_pat q_cap q_min]. cbv zeta.
  destruct (Nat.ltb_spec (span is_nl s) 3) as [Hlt|Hge].
  - destruct (Nat.leb_spec 3 (span is_nl s)); [lia | reflexivity].
  - destruct (Nat.leb_spec 3 (span is_nl s)); [|lia].
    apply first_down_top. replace (3 + (span is_nl s - 3))%nat
      with (span is_nl s) by lia.
    simpl. f_equal. lia.
Qed.

Lemma collapse_prev (k : nat) prev prev' (s : jsstring) :
  replace_from re_blank_run [LF; LF] k prev s
  = replace_from re_blank_run [LF; LF] k prev' s.
Proof.
  revert k prev prev'. induction s as [|c t IH]; intros k prev prev'.
  - destruct k; [|reflexivity]. cbn [replace_from]. now rewrite !m_blank_run.
  - destruct k as [|k]; cbn [replace_from]; [|apply IH].
    rewrite !m_blank_run. reflexivity.
Qed.

Lemma ends_with_newline_tail (c : Z) (t : jsstring) :
  ends_with_newline (c :: t) = false -> ends_with_newline t = false.
Proof.
  unfold ends_with_newline. simpl. destruct (rev t) as [|d u]; simpl; auto.
Qed.

Lemma span_nl_inside (u rest : jsstring) :
  u <> [] -> ends_with_newline u = false ->
  span is_nl (u ++ rest) = span is_nl u.
Proof.
  induction u as [|c t IH]; [contradiction|]. intros _ Hend.
  rewrite <- app_comm_cons. cbn [span].
  destruct (is_nl c) eqn:Hc; [|reflexivity]. f_equal.
  destruct t as [|d t'].
  - unfold ends_with_newline in Hend. simpl in Hend.
    rewrite is_nl_eqb in Hc. congruence.
  - apply IH; [discriminate|]. now apply ends_with_newline_tail in Hend.
Qed.

(** The collapse works on each side of a cut that is not inside a run of
    newlines. *)
Lemma collapse_app (pre rest : jsstring) (k : nat) prev prev' :
  ends_with_newline pre = false -> (k <= length pre)%nat ->
  replace_from re_blank_run [LF; LF] k prev (pre ++ rest)
  = replace_from re_blank_run [LF; LF] k prev pre
    ++ replace_from re_blank_run [LF; LF] O prev' rest.
Proof.
  revert k prev. induction pre as [|c t IH]; intros k prev Hend Hk.
  - simpl in Hk. replace k with O by lia. simpl app at 1.
    cbn [replace_from]. rewrite m_blank_run. simpl. apply collapse_prev.
  - pose proof (ends_with_newline_tail _ _ Hend) as Hend'.
    destruct k as [|k].
    + rewrite <- app_comm_cons. cbn [replace_from].
      rewrite !m_blank_run, app_comm_cons.
      rewrite span_nl_inside by (auto; discriminate).
      destruct (Nat.leb_spec 3 (span is_nl (c :: t))) as [Hge|Hlt].
      * pose proof (span_le is_nl (c :: t)) as Hle. cbn [length] in Hle.
        destruct (span is_nl (c :: t)) as [|j]; [lia|].
        rewrite (IH j (Some c)) by (auto; lia).
        now rewrite <- !app_assoc.
      * rewrite (IH O (Some c)) by (auto; simpl; lia). reflexivity.
    + rewrite <- app_comm_cons. cbn [replace_from]. simpl in Hk.
      apply IH; [exact Hend' | lia].
Qed.

Lemma span_nl_run (k : nat) (post : jsstring) :
  starts_with_newline post = false ->
  span is_nl (repeat LF k ++ post) = k.
Proof.
  intros Hpost. induction k as [|k IH].
  - destruct post as [|c t]; [reflexivity|]. cbn [repeat app span].
    simpl in Hpost. rewrite is_nl_eqb, Hpost. reflexivity.
  - cbn [repeat app span]. rewrite is_nl_eqb, Z.eqb_refl.
    cbn [repeat app] in IH. now rewrite IH.
Qed.

Lemma collapse_keep (c : Z) (t : jsstring) prev :
  (span is_nl (c :: t) < 3)%nat ->
  replace_from re_blank_run [LF; LF] O prev (c :: t)
  = c :: replace_from re_blank_run [LF; LF] O None t.
Proof.
  intros Hlt. cbn [replace_from]. rewrite m_blank_run.
  destruct (Nat.leb_spec 3 (span is_nl (c :: t))); [lia|].
  f_equal. apply collapse_prev.
Qed.

(** A maximal run of newlines at the cursor. *)
Lemma collapse_run (k : nat) (post : jsstring) prev :
  starts_with_newline post = false ->
  replace_from re_blank_run [LF; LF] O prev (repeat LF k ++ post)
  = collapsed_run k ++ replace_from re_blank_run [LF; LF] O None post.
Proof.
  intros Hpost. unfold collapsed_run.
  destruct (Nat.leb_spec 3 k) as [Hge|Hlt].
  - destruct k as [|k]; [lia|].
    pose proof (span_nl_run (S k) post Hpost) as Hspan.
    cbn [repeat app] in Hspan |- *. cbn [replace_from].
    rewrite m_blank_run, Hspan.
    destruct (Nat.leb_spec 3 (S k)); [|lia].
    rewrite replace_from_skip by (rewrite length_app, repeat_length; lia).
    rewrite skipn_app, repeat_length, Nat.sub_diag.
    rewrite skipn_all2 by (rewrite repeat_length; lia). simpl.
    f_equal. f_equal. apply collapse_prev.
  - assert (Hk : k = 0%nat \/ k = 1%nat \/ k = 2%nat) by lia.
    destruct Hk as [-> | [-> | ->]].
    + simpl. apply collapse_prev.
    + pose proof (span_nl_run 1 post Hpost) as H1.
      cbn [repeat app] in H1 |- *.
      rewrite collapse_keep by lia. reflexivity.
    + pose proof (span_nl_run 2 post Hpost) as H2.
      pose proof (span_nl_run 1 post Hpost) as H1.
      cbn [repeat app] in H1, H2 |- *.
      rewrite collapse_keep by lia. rewrite collapse_keep by lia.
      reflexivity.
Qed.

Lemma trim_no_outer_space (s : jsstring) : no_outer_space (trim s) = true.
Proof.
  unfold no_outer_space.
  destruct (trim s) as [|c t] eqn:Ht; [reflexivity|].
  destruct (rev (c :: t)) as [|d u] eqn:Hr; [reflexivity|].
  rewrite (trim_head _ _ _ Ht). rewrite <- Ht in Hr.
  apply (f_equal (@rev Z)) in Hr. rewrite rev_involutive in Hr. simpl in Hr.
  now rewrite (trim_last _ _ _ Hr).
Qed.

(** C5, the claim as stated fails: two blank lines between two lines of
    text (three newlines in a row) do not stay, one blank line is left. *)
Lemma two_blank_lines_collapsed :
  let S := text_of_lines ["first"; EmptyString; EmptyString; "second"]%string in
  split_lines S = [utf16 "first"; []; []; utf16 "second"]
  /\ cleanResponse S = text_of_lines ["first"; EmptyString; "second"]%string
  /\ cleanResponse S <> S.
Proof. vm_compute. repeat split. discriminate. Qed.


(** *** Sizes: the result is never longer than the input *)












(** The spinner and the box-drawing stages are filters. *)
Lemma strip_box_filter (s : jsstring) :
  strip_box s = List.filter (fun c => negb (one_of box_chars c)) s.
Proof. apply replace_from_class_once. Qed.

(** *** Cleaning a text that is already clean *)

Lemma clean_from_cursors prev (s : jsstring) :
  clean_from prev s = true ->
  all_cursors (fun prev' s' => clean_at prev' s' = true) prev s.
Proof.
  revert prev. induction s as [|c t IH]; intros prev; simpl.
  - rewrite andb_true_r. auto.
  - intros H. apply andb_prop in H as [H Ht]. auto.
Qed.

Lemma clean_at_parts prev (s : jsstring) :
  clean_at prev s = true ->
  match s with c :: _ => plain_char c = true | [] => True end
  /\ startsWith s (utf16 "Loaded cached credentials") = false
  /\ startsWith s [LF; LF; LF] = false
  /\ (at_bol prev = true ->
      starts_chrome (drop_while is_ws s) = false /\ blank_to_eol s = false).
Proof.
  unfold clean_at. intros H.
  apply andb_prop in H as [H Hline]. apply andb_prop in H as [H Hnl].
  apply andb_prop in H as [Hplain Hcred].
  apply negb_true_iff in Hline, Hnl, Hcred.
  repeat split; auto.
  - destruct s; auto.
  - destruct (starts_chrome _); [|reflexivity].
    rewrite H in Hline. discriminate.
  - destruct (blank_to_eol s); [|reflexivity].
    rewrite H, orb_true_r in Hline. discriminate.
Qed.

(** A pattern that does not match where the text is clean leaves a clean
    text as it is. *)
Lemma replace_all_clean (r : pattern) (T : jsstring) :
  (forall prev s, clean_at prev s = true -> m_pat r prev s = None) ->
  clean_from None T = true -> replace_all r [] T = T.
Proof.
  intros Hr HT. apply replace_all_no_match.
  apply (all_cursors_impl _ _ _ _ Hr), clean_from_cursors, HT.
Qed.

Lemma m_pat_Lit_starts (l : jsstring) (r : pattern) prev (s : jsstring)
  (n : nat) :
  m_pat (Lit l :: r) prev s = Some n -> startsWith s l = true.
Proof.
  intros H. apply m_pat_Lit in H. destruct H as (s' & n' & -> & _).
  apply startsWith_app. now exists s'.
Qed.

(** The escape sequences, the credentials line, the spinner frames and the
    box-drawing characters. *)
Lemma no_match_literal_head (a : Z) (l : jsstring) (r : pattern) prev
  (s : jsstring) :
  plain_char a = false -> clean_at prev s = true ->
  m_pat (Lit (a :: l) :: r) prev s = None.
Proof.
  intros Ha Hc. destruct (m_pat _ prev s) as [n|] eqn:Hm; [|reflexivity].
  apply m_pat_Lit in Hm. destruct Hm as (s' & n' & -> & _).
  apply clean_at_parts in Hc. simpl in Hc. destruct Hc as [Hp _]. congruence.
Qed.

Lemma no_match_class (p : Z -> bool) prev (s : jsstring) :
  (forall c, p c = true -> plain_char c = false) -> clean_at prev s = true ->
  m_pat [Cls p Once] prev s = None.
Proof.
  intros Hp Hc. rewrite m_pat_class_once. destruct s as [|c t]; [reflexivity|].
  destruct (p c) eqn:Hpc; [|reflexivity].
  apply clean_at_parts in Hc. destruct Hc as [Hplain _].
  rewrite (Hp c Hpc) in Hplain. discriminate.
Qed.

Lemma no_match_credentials prev (s : jsstring) :
  clean_at prev s = true -> m_pat re_credentials prev s = None.
Proof.
  intros Hc. destruct (m_pat _ prev s) as [n|] eqn:Hm; [|reflexivity].
  apply m_pat_Lit_starts in Hm. apply clean_at_parts in Hc.
  destruct Hc as (_ & Hcred & _). congruence.
Qed.

Lemma spinner_not_plain (c : Z) :
  one_of spinner_frames c = true -> plain_char c = false.
Proof.
  unfold plain_char. intros ->. simpl.
  now rewrite andb_false_r.
Qed.

Lemma box_not_plain (c : Z) :
  one_of box_chars c = true -> plain_char c = false.
Proof.
  unfold plain_char. intros ->. simpl. now rewrite !andb_false_r.
Qed.

Lemma strip_control_clean (T : jsstring) :
  clean_from None T = true -> strip_control T = T.
Proof.
  intros HT. unfold strip_control. cbv zeta.
  rewrite (replace_all_clean re_csi T) by
    (auto; intros; now apply no_match_literal_head).
  rewrite (replace_all_clean re_mode T) by
    (auto; intros; now apply no_match_literal_head).
  rewrite (replace_all_clean re_cursor T) by
    (auto; intros; now apply no_match_literal_head).
  rewrite (replace_all_clean re_osc T) by
    (auto; intros; now apply no_match_literal_head).
  rewrite (replace_all_clean re_credentials T) by
    (auto using no_match_credentials).
  apply replace_all_clean; [|exact HT].
  intros. apply no_match_class; [apply spinner_not_plain | assumption].
Qed.

Lemma strip_box_clean (T : jsstring) :
  clean_from None T = true -> strip_box T = T.
Proof.
  intros HT. apply replace_all_clean; [|exact HT].
  intros. apply no_match_class; [apply box_not_plain | assumption].
Qed.

(** The lines of the interface.  Behind [^\s*] their patterns go on with a
    character that is no white space, so the star takes all the white
    space there is. *)
Lemma ws_star_full (r : pattern) prev (s : jsstring) (n : nat) :
  heads_chrome r ->
  m_pat (Cls is_ws Star :: r) prev s = Some n ->
  starts_chrome (drop_while is_ws s) = true.
Proof.
  intros Hhead H. apply m_pat_Cls in H.
  destruct H as (k & n' & Hk & _ & Hm & _). cbn [q_cap q_min] in Hk.
  destruct (Hhead _ _ _ Hm) as (Hchrome & c & t & Hs & Hc).
  destruct (Nat.eq_dec k (span is_ws s)) as [->|Hne].
  - now rewrite span_skipn in Hchrome.
  - destruct (span_nth is_ws s k ltac:(lia)) as (c' & t' & Hs' & Hc').
    congruence.
Qed.

Lemma no_match_chrome_line (r : pattern) prev (s : jsstring) :
  heads_chrome r -> clean_at prev s = true ->
  m_pat (Bol :: Cls is_ws Star :: r) prev s = None.
Proof.
  intros Hhead Hc. destruct (m_pat _ prev s) as [n|] eqn:Hm; [|reflexivity].
  apply m_pat_Bol in Hm. destruct Hm as [Hbol Hm].
  apply (ws_star_full _ _ _ _ Hhead) in Hm.
  apply clean_at_parts in Hc. destruct Hc as (_ & _ & _ & Hline).
  destruct (Hline Hbol) as [Hno _]. congruence.
Qed.

Ltac in_heads :=
  vm_compute; repeat (first [ left; reflexivity | right ]).

Lemma literal_heads_chrome (l : jsstring) (r : pattern) :
  In l chrome_heads ->
  match l with a :: _ => is_ws a = false | [] => False end ->
  heads_chrome (Lit l :: r).
Proof.
  intros Hin Ha prev s n Hm. split.
  - unfold starts_chrome. apply orb_true_iff. left.
    apply existsb_exists. exists l. split; [exact Hin|].
    now apply m_pat_Lit_starts in Hm.
  - apply m_pat_Lit in Hm. destruct Hm as (s' & n' & -> & _).
    destruct l as [|a l]; [contradiction|]. now exists a, (l ++ s').
Qed.

Lemma no_sandbox_heads_chrome (r : pattern) :
  heads_chrome (LitI (utf16 "no sandbox") :: r).
Proof.
  intros prev s n Hm. split.
  - unfold starts_chrome, starts_with_ci. apply orb_true_iff. right.
    cbn [m_pat] in Hm. destruct (strip_prefix _ _ s); [reflexivity|discriminate].
  - change (utf16 "no sandbox") with (0x6E :: utf16 "o sandbox") in Hm.
    apply m_pat_LitI_head in Hm. destruct Hm as (c & t & -> & Hc).
    exists c, t. split; [reflexivity|].
    unfold canon in Hc. simpl in Hc. unfold is_ws.
    destruct ((97 <=? c) && (c <=? 122)) eqn:Hrange; lia.
Qed.

Lemma tool_status_heads_chrome (r : pattern) :
  heads_chrome (Cls (one_of (utf16 "✓✗")) Once :: r).
Proof.
  intros prev s n Hm.
  apply m_pat_Cls_head in Hm; [|simpl; lia].
  destruct Hm as (c & t & -> & Hc).
  assert (Hcases : c = 0x2713 \/ c = 0x2717).
  { unfold one_of in Hc. simpl in Hc.
    rewrite !orb_true_iff, !Z.eqb_eq in Hc.
    destruct Hc as [?|[?|?]]; auto; discriminate. }
  split.
  - unfold starts_chrome. apply orb_true_iff. left.
    apply existsb_exists. exists [c]. split.
    + destruct Hcases as [->| ->]; in_heads.
    + simpl. now rewrite Z.eqb_refl.
  - exists c, t. split; [reflexivity|]. unfold is_ws.
    destruct Hcases as [->| ->]; reflexivity.
Qed.

Lemma no_match_prompt prev (s : jsstring) :
  clean_at prev s = true -> m_pat re_prompt prev s = None.
Proof.
  intros Hc. destruct (m_pat _ prev s) as [n|] eqn:Hm; [|reflexivity].
  apply m_pat_Bol in Hm. destruct Hm as [Hbol Hm].
  assert (Hhead : heads_chrome (Lit (utf16 ">") :: [Cls is_ws Star; Eol])).
  { apply literal_heads_chrome; [in_heads | vm_compute; reflexivity]. }
  destruct (Hhead _ _ _ Hm) as (Hchrome & c & t & -> & Hws).
  apply clean_at_parts in Hc. destruct Hc as (_ & _ & _ & Hline).
  destruct (Hline Hbol) as [Hno _]. simpl in Hno. rewrite Hws in Hno.
  congruence.
Qed.

Lemma no_match_ui_patterns :
  Forall (fun r => forall prev s, clean_at prev s = true -> m_pat r prev s = None)
    ui_patterns.
Proof.
  unfold ui_patterns.
  repeat (apply Forall_cons; split);
    [ .. | apply Forall_nil; exact I ];
    try (intros prev s Hc; apply no_match_chrome_line; [|exact Hc]).
  - apply literal_heads_chrome; [in_heads | vm_compute; reflexivity].
  - apply literal_heads_chrome; [in_heads | vm_compute; reflexivity].
  - apply no_sandbox_heads_chrome.
  - apply literal_heads_chrome; [in_heads | vm_compute; reflexivity].
  - apply literal_heads_chrome; [in_heads | vm_compute; reflexivity].
  - apply literal_heads_chrome; [in_heads | vm_compute; reflexivity].
  - apply literal_heads_chrome; [in_heads | vm_compute; reflexivity].
  - apply literal_heads_chrome; [in_heads | vm_compute; reflexivity].
  - apply literal_heads_chrome; [in_heads | vm_compute; reflexivity].
  - apply tool_status_heads_chrome.
  - apply no_match_prompt.
Qed.

Lemma strip_ui_clean (T : jsstring) :
  clean_from None T = true -> strip_ui T = T.
Proof.
  intros HT. unfold strip_ui. pose proof no_match_ui_patterns as Hall.
  induction Hall as [|r rs Hr _ IH]; simpl; [reflexivity|].
  now rewrite (replace_all_clean r T Hr HT).
Qed.

(** No marker, no block. *)
Lemma drop_while_In (p : Z -> bool) (s : jsstring) (c : Z) :
  In c (drop_while p s) -> In c s.
Proof.
  induction s as [|a t IH]; simpl; [auto|].
  destruct (p a); simpl; auto.
Qed.

Lemma trim_In (s : jsstring) (c : Z) : In c (trim s) -> In c s.
Proof.
  unfold trim. rewrite <- in_rev. intros H.
  apply drop_while_In in H. rewrite <- in_rev in H.
  now apply drop_while_In in H.
Qed.

Lemma clean_from_plain prev (s : jsstring) (c : Z) :
  clean_from prev s = true -> In c s -> plain_char c = true.
Proof.
  revert prev. induction s as [|a t IH]; intros prev; simpl; [tauto|].
  intros H. apply andb_prop in H as [Ha Ht]. intros [->|Hin].
  - apply clean_at_parts in Ha. tauto.
  - eauto.
Qed.

Lemma clean_no_marker_line (T : jsstring) :
  clean_from None T = true ->
  existsb is_marker_line (split_lines T) = false.
Proof.
  intros HT. destruct (existsb _ _) eqn:He; [|reflexivity]. exfalso.
  apply existsb_exists in He. destruct He as (l & Hl & Hm).
  unfold is_marker_line in Hm. rewrite MARKER_code in Hm.
  apply startsWith_app in Hm. destruct Hm as (u & Hu).
  assert (Hin : In 0x2726 T).
  { apply (split_lines_chars T l); [exact Hl|]. apply trim_In.
    rewrite Hu. now left. }
  pose proof (clean_from_plain _ _ _ HT Hin) as Hp. vm_compute in Hp.
  discriminate.
Qed.

(** The final cleanup. *)
Lemma no_match_blank_run prev (s : jsstring) :
  clean_at prev s = true -> m_pat re_blank_run prev s = None.
Proof.
  intros Hc. rewrite m_blank_run.
  destruct (Nat.leb_spec 3 (span is_nl s)) as [Hge|]; [|reflexivity].
  apply clean_at_parts in Hc. destruct Hc as (_ & _ & Hnl & _).
  exfalso. assert (H : startsWith s [LF; LF; LF] = true); [|congruence].
  destruct s as [|a [|b [|c t]]]; cbn [span] in Hge;
    repeat match type of Hge with
    | context [if is_nl ?x then _ else _] =>
        let E := fresh "E" in
        destruct (is_nl x) eqn:E; [rewrite is_nl_eqb in E|]
    end; try lia.
  apply Z.eqb_eq in E, E0, E1. subst a b c. reflexivity.
Qed.

Lemma no_match_blank_line prev (s : jsstring) :
  clean_at prev s = true -> m_pat re_blank_line prev s = None.
Proof.
  intros Hc. destruct (m_pat _ prev s) as [n|] eqn:Hm; [|reflexivity].
  apply m_pat_Bol in Hm. destruct Hm as [Hbol Hm].
  apply m_pat_Cls in Hm. destruct Hm as (k & n' & Hk & _ & Hm & _).
  cbn [q_cap q_min] in Hk. apply m_pat_Eol in Hm. destruct Hm as [Heol _].
  apply clean_at_parts in Hc. destruct Hc as (_ & _ & _ & Hline).
  destruct (Hline Hbol) as [_ Hno].
  assert (H : blank_to_eol s = true); [|congruence].
  unfold blank_to_eol. apply existsb_exists. exists k. split; [|exact Heol].
  apply in_seq. lia.
Qed.

Lemma no_outer_space_trim (T : jsstring) :
  no_outer_space T = true -> trim T = T.
Proof.
  unfold no_outer_space. intros H.
  destruct T as [|c t]; [reflexivity|].
  remember (rev (c :: t)) as w eqn:Hw. destruct w as [|d u].
  - apply (f_equal (@length Z)) in Hw. rewrite length_rev in Hw.
    discriminate.
  - apply andb_prop in H as [Hc Hd]. apply negb_true_iff in Hc, Hd.
    apply trim_fixed; [exact Hc|]. now rewrite <- Hw.
Qed.

(** C1, the claim as stated fails: a marker behind the marker survives the
    first pass and is removed by the second. *)
Lemma nested_marker_not_idempotent :
  let R := utf16 "✦ ✦ x" in
  cleanResponse R = utf16 "✦ x"
  /\ cleanResponse (cleanResponse R) = utf16 "x"
  /\ cleanResponse (cleanResponse R) <> cleanResponse R.
Proof. vm_compute. repeat split. discriminate. Qed.

(** C1, amended.  [cleanResponse] returns an already clean text
    unchanged, and a second pass changes nothing whenever the first pass
    has produced such a text.  A text is already clean when it has no
    white space at either end; holds no escape character, spinner frame,
    box-drawing character or marker; nowhere reads
    'Loaded cached credentials'; nowhere has three newlines in a row; and
    at the start of a line neither begins, white space skipped, with the
    head of a chrome line ('Using:', '~/', 'no sandbox' in any case,
    'auto', 'Reading', 'Type your message or @path', '>', '?', 'Try ' and a
    double quote,
    '✓', '✗') nor runs in white space to the end of a line. *)
Theorem clean_text_unchanged :
  (forall T, already_clean T = true -> cleanResponse T = T)
  /\ (forall R, already_clean (cleanResponse R) = true ->
                cleanResponse (cleanResponse R) = cleanResponse R).
Proof.
  assert (Hfix : forall T, already_clean T = true -> cleanResponse T = T).
  { intros T H. unfold already_clean in H. apply andb_prop in H as [Hends HT].
    unfold cleanResponse, strip_chrome.
    rewrite (strip_control_clean T HT), (strip_box_clean T HT),
      (strip_ui_clean T HT).
    rewrite (extract_no_marker T (clean_no_marker_line T HT)).
    unfold final_cleanup, collapse_blank_runs, strip_blank_lines.
    rewrite (replace_all_no_match re_blank_run [LF; LF] T).
    2:{ apply (all_cursors_impl _ _ _ _ no_match_blank_run).
        now apply clean_from_cursors. }
    rewrite (replace_all_clean re_blank_line T no_match_blank_line HT).
    now apply no_outer_space_trim. }
  split; [exact Hfix|]. intros R HR. now apply Hfix.
Qed.

(** The answer of the example is already clean, and so is what
    [cleanResponse] makes of the sample output. *)
Lemma clean_text_unchanged_witness :
  already_clean (utf16 "The answer is 42") = true
  /\ cleanResponse (utf16 "The answer is 42") = utf16 "The answer is 42"
  /\ already_clean (cleanResponse sample_output) = true
  /\ cleanResponse (cleanResponse sample_output) = cleanResponse sample_output.
Proof.
  assert (H1 : already_clean (utf16 "The answer is 42") = true)
    by (vm_compute; reflexivity).
  assert (H2 : already_clean (cleanResponse sample_output) = true)
    by (vm_compute; reflexivity).
  split; [exact H1|]. split; [exact (proj1 clean_text_unchanged _ H1)|].
  split; [exact H2|]. exact (proj2 clean_text_unchanged _ H2).
Defined.

End CleanProps.

(** ** Checks on concrete inputs *)

Module Examples.
Import JS Gemini Config Notions.

Example utf16_marker : utf16 "✦" = [0x2726].
Proof. reflexivity. Qed.

Example utf16_two_bytes : utf16 "é" = [0xE9].
Proof. reflexivity. Qed.

Example utf16_ascii : utf16 "q?" = [0x71; 0x3F].
Proof. reflexivity. Qed.

Example trim_both_ends :
  trim (utf16 "  a b " ++ [LF]) = utf16 "a b".
Proof. reflexivity. Qed.

Example split_empty : split_lines [] = [[]].
Proof. reflexivity. Qed.

Example split_blank_line :
  split_lines (utf16 "a" ++ [LF; LF] ++ utf16 "b") = [utf16 "a"; []; utf16 "b"].
Proof. reflexivity. Qed.

Example show_int_values :
  show_int 0 = utf16 "0" /\ show_int 1 = utf16 "1"
  /\ show_int 127 = utf16 "127" /\ show_int (-2) = utf16 "-2".
Proof. repeat split. Qed.

(** A colour sequence around a word. *)
Example csi_removed :
  replace_all re_csi [] ([ESC] ++ utf16 "[31mred" ++ [ESC] ++ utf16 "[0m")
  = utf16 "red".
Proof. reflexivity. Qed.

(** [\s*$] gives back the newline it has taken: the line goes, the
    newline at its end stays. *)
Example using_line_removed :
  replace_all re_using []
    (text_of_lines ["a"; "  Using: 2 MCP servers "; "b"]%string)
  = text_of_lines ["a"; EmptyString; "b"]%string.
Proof. vm_compute. reflexivity. Qed.

(** [^\s*] starts on the line before when that line is empty: the match
    is the newline that ends the empty line and the word. *)
Example auto_line_removed :
  replace_all re_auto [] (text_of_lines ["a"; EmptyString; "auto"; "b"]%string)
  = text_of_lines ["a"; EmptyString; "b"]%string.
Proof. vm_compute. reflexivity. Qed.

(** The flag i. *)
Example no_sandbox_any_case :
  replace_all re_no_sandbox [] (utf16 "No Sandbox (see /docs)") = [].
Proof. vm_compute. reflexivity. Qed.

(** A quoted suggestion is removed, a sentence that starts alike is not. *)
Example try_lines :
  replace_all re_try [] ((utf16 "Try " ++ [QUOTE] ++ utf16 "fix it" ++ [QUOTE]))
  = []
  /\ replace_all re_try [] (utf16 "Try this") = utf16 "Try this".
Proof. vm_compute. split; reflexivity. Qed.

(** An escape sequence inside another is left by the first pass, with its
    control character. *)
Example nested_escape :
  let R := [ESC] ++ utf16 "[" ++ [ESC] ++ utf16 "[0m0m" in
  cleanResponse R = [ESC] ++ utf16 "[0m"
  /\ cleanResponse (cleanResponse R) = [].
Proof. vm_compute. split; reflexivity. Qed.

Example getCommand_fresh :
  getCommand new_adapter (utf16 "hi; rm -rf /") None
  = [utf16 "gemini"; utf16 "hi; rm -rf /"].
Proof. reflexivity. Qed.

Example getCommand_resumed :
  getCommand {| hasActiveSession := true |} (utf16 "hi") None
  = [utf16 "gemini"; utf16 "--resume"; utf16 "latest"; utf16 "hi"].
Proof. reflexivity. Qed.

Example getCommand_no_continuation :
  getCommand {| hasActiveSession := true |} (utf16 "hi")
    (Some {| continueSession := Some false; cwd := None |})
  = [utf16 "gemini"; utf16 "hi"].
Proof. reflexivity. Qed.

Example send_auth_error :
  send (fun _ _ _ =>
          inr {| exitCode := 1; stdout := [];
                 stderr := utf16 "auth error" ++ [LF] |})
    (utf16 "/work") new_adapter (utf16 "hi") None
  = (new_adapter,
     inl (MkError (utf16 "Gemini CLI exited with code 1: auth error"))).
Proof. vm_compute. reflexivity. Qed.

(** [JSON.parse] gives null: the read of [tools] throws, the defaults are
    returned with a warning. *)
Example loadConfig_null :
  @loadConfig Z (utf16 "/home/u") (join (utf16 "/")) (fun _ => true)
    (fun _ => inr (utf16 "null")) (fun _ => inr VNull)
  = inr {| warnings := [utf16 "Failed to load config, using defaults"];
           config := DEFAULT_CONFIG |}.
Proof. reflexivity. Qed.

(** Escape sequences cut short match no pattern and stay where they
    are: a control sequence without its final letter, an operating-system
    command without its bell. *)
Example truncated_escapes_kept :
  cleanResponse ([ESC] ++ utf16 "[12") = [ESC] ++ utf16 "[12"
  /\ cleanResponse ([ESC] ++ utf16 "]0;title") = [ESC] ++ utf16 "]0;title"
  /\ cleanResponse ([ESC] ++ utf16 "[12" ++ [LF] ++ utf16 "x" ++ [0xDC00])
     = [ESC] ++ utf16 "[12" ++ [LF] ++ utf16 "x" ++ [0xDC00].
Proof. vm_compute. repeat split. Qed.

(** Two lines of one space between two words: both go, with the newline
    between them. *)
Example blank_lines_removed :
  final_cleanup (utf16 "a" ++ [LF; 0x20; LF; 0x20; LF] ++ utf16 "b")
  = utf16 "a" ++ [LF; LF] ++ utf16 "b".
Proof. reflexivity. Qed.

(** A call with a value that is no string throws. *)
Example call_without_string :
  Runtime.call_cleanResponse VNull = inl TypeError
  /\ Runtime.call_cleanResponse (VNumber 5) = inl TypeError
  /\ Runtime.call_cleanResponse (VString (utf16 " ok ")) = inr (utf16 "ok").
Proof. repeat split. Qed.

End Examples.

(** ** More on the adapter object *)

Module AdapterMore.
Import JS Gemini Cli Notions RegexFacts.

(** The three command builders agree: the one-shot command is the
    interactive command followed by the prompt, and the persistent
    arguments are the interactive command of a caller without options,
    less the executable. *)
Theorem command_builders_agree (this : adapter) (p : jsstring)
  (options : option SendOptions) :
  getCommand this p options = getInteractiveCommand this options ++ [p]
  /\ getInteractiveCommand this None = utf16 "gemini" :: getPersistentArgs this
  /\ (getInteractiveCommand this options = [utf16 "gemini"]
      \/ getInteractiveCommand this options
         = utf16 "gemini" :: getPersistentArgs this).
Proof.
  unfold getCommand, getInteractiveCommand, getPersistentArgs.
  destruct (hasActiveSession this),
    (not_false (opt_continueSession options)); simpl; auto.
Qed.

Section Sessions.

Variable runCommand :
  jsstring -> list jsstring -> jsstring -> Error + CommandResult.
Variable process_cwd : jsstring.

Lemma send_cases (this : adapter) (prompt : jsstring)
  (options : option SendOptions) :
  (exists result,
     runCommand (utf16 "gemini") (tl (getCommand this prompt options))
       (send_cwd process_cwd options) = inr result
     /\ exitCode result = 0
     /\ send runCommand process_cwd this prompt options
        = ({| hasActiveSession := true |}, inr (trim (stdout result))))
  \/ (exists e, send runCommand process_cwd this prompt options = (this, inl e)).
Proof.
  unfold send.
  destruct (runCommand _ _ _) as [e|result]; [right; eauto|].
  destruct (Z.eqb_spec (exitCode result) 0) as [Hz|Hnz]; simpl.
  - left. exists result. auto.
  - right. eauto.
Qed.

(** A conversation: once a send has succeeded, the next commands resume
    the session, for a caller that does not disable continuation; a send
    that fails changes nothing in the commands that follow; after
    [resetContext] no command resumes. *)
Theorem session_resumed_after_send (this : adapter) (prompt next : jsstring)
  (options : option SendOptions) :
  let this' := fst (send runCommand process_cwd this prompt options) in
  (forall value,
     snd (send runCommand process_cwd this prompt options) = inr value ->
     getCommand this' next None
     = [utf16 "gemini"; utf16 "--resume"; utf16 "latest"; next]
     /\ getPersistentArgs this' = [utf16 "--resume"; utf16 "latest"])
  /\ (forall e o,
        snd (send runCommand process_cwd this prompt options) = inl e ->
        getCommand this' next o = getCommand this next o)
  /\ (forall o, getCommand (resetContext this') next o = [utf16 "gemini"; next]).
Proof.
  cbv zeta. destruct (send_cases this prompt options)
    as [(result & _ & _ & Hs)|(e & Hs)]; rewrite Hs; simpl.
  - repeat split; intros; try discriminate.
    unfold getCommand. simpl. now rewrite andb_false_r.
  - repeat split; intros; try discriminate.
    unfold getCommand. simpl. now rewrite andb_false_r.
Qed.

(** What a send hands back is trimmed and never empty of cause: a resolved
    value has no white space at either end; the message of a rejection
    for a non-zero exit code ends with a cause that is not empty and has
    no white space at either end, 'Unknown error' when both streams are
    blank. *)
Theorem send_outcome_trimmed (this : adapter) (prompt : jsstring)
  (options : option SendOptions) (result : CommandResult) :
  runCommand (utf16 "gemini") (tl (getCommand this prompt options))
    (send_cwd process_cwd options) = inr result ->
  (exitCode result = 0 ->
   exists value,
     snd (send runCommand process_cwd this prompt options) = inr value
     /\ value = trim (stdout result) /\ no_outer_space value = true)
  /\ (exitCode result <> 0 ->
      exists cause,
        snd (send runCommand process_cwd this prompt options)
        = inl (MkError (utf16 "Gemini CLI exited with code "
                          ++ show_int (exitCode result) ++ utf16 ": " ++ cause))
        /\ cause <> [] /\ no_outer_space cause = true
        /\ (trim (stderr result) = [] -> trim (stdout result) = [] ->
            cause = utf16 "Unknown error")).
Proof.
  intros Hrun. unfold send. rewrite Hrun. split.
  - intros Hz. rewrite Hz. simpl. eexists. split; [reflexivity|].
    split; [reflexivity|]. apply CleanProps.trim_no_outer_space.
  - intros Hnz. apply Z.eqb_neq in Hnz. rewrite Hnz. simpl.
    eexists. split; [reflexivity|].
    pose proof (CleanProps.trim_no_outer_space (stderr result)) as He.
    pose proof (CleanProps.trim_no_outer_space (stdout result)) as Ho.
    destruct (trim (stderr result)) as [|c t]; simpl.
    + destruct (trim (stdout result)) as [|c t]; simpl.
      * split; [discriminate|]. split; [reflexivity|]. reflexivity.
      * split; [discriminate|]. split; [exact Ho|]. discriminate.
    + split; [discriminate|]. split; [exact He|]. discriminate.
Qed.

End Sessions.

(** A first send that succeeds, then a second command. *)
Lemma session_resumed_after_send_witness :
  let run := fun _ _ _ =>
    inr {| exitCode := 0; stdout := utf16 " hi "; stderr := [] |} in
  snd (send run [] new_adapter (utf16 "q1") None) = inr (utf16 "hi")
  /\ getCommand (fst (send run [] new_adapter (utf16 "q1") None))
       (utf16 "q2") None
     = [utf16 "gemini"; utf16 "--resume"; utf16 "latest"; utf16 "q2"].
Proof.
  intros run.
  assert (H : snd (send run [] new_adapter (utf16 "q1") None)
              = inr (utf16 "hi")) by reflexivity.
  split; [exact H|].
  exact (proj1 (proj1 (session_resumed_after_send run [] new_adapter
                         (utf16 "q1") (utf16 "q2") None) _ H)).
Defined.

(** Exit code 2, nothing on either stream. *)
Lemma send_outcome_trimmed_witness :
  let result := {| exitCode := 2; stdout := utf16 "  "; stderr := [LF] |} in
  let run := fun _ _ _ => inr result in
  snd (send run [] new_adapter (utf16 "q") None)
  = inl (MkError (utf16 "Gemini CLI exited with code 2: Unknown error")).
Proof.
  intros result run.
  destruct (proj2 (send_outcome_trimmed run [] new_adapter (utf16 "q") None
                     result eq_refl) ltac:(discriminate))
    as (cause & Hs & _ & _ & Hcause).
  rewrite Hs, (Hcause eq_refl eq_refl). reflexivity.
Defined.

(** *** The prompt pattern *)

Lemma search_Bol_inside (r : pattern) (c : Z) (s : jsstring) :
  is_lt c = false -> forallb is_dot s = true ->
  search (Bol :: r) (Some c) s = None.
Proof.
  revert c. induction s as [|a t IH]; intros c Hc Hs; simpl.
  - now rewrite Hc.
  - rewrite Hc. simpl in Hs. apply andb_prop in Hs as [Ha Ht].
    rewrite IH; auto. unfold is_dot in Ha. now apply negb_true_iff in Ha.
Qed.

Lemma search_hit (r : pattern) prev (s : jsstring) (n : nat) :
  m_pat r prev s = Some n -> search r prev s = Some (O, n).
Proof. intros H. destruct s; cbn [search]; now rewrite H. Qed.

Lemma search_miss (r : pattern) prev (s : jsstring) :
  m_pat r prev s = None ->
  search r prev s =
  match s with
  | [] => None
  | c :: t => match search r (Some c) t with
              | Some (i, n) => Some (S i, n)
              | None => None
              end
  end.
Proof. intros H. destruct s; cbn [search]; now rewrite H. Qed.

Lemma m_pat_Lit_app (l : jsstring) (r : pattern) prev (s : jsstring) :
  m_pat (Lit l :: r) prev (l ++ s)
  = option_map (Nat.add (length l)) (m_pat r (last_read prev l) s).
Proof.
  cbn [m_pat]. rewrite (proj2 (strip_prefix_eqb l (l ++ s) s) eq_refl).
  now rewrite firstn_app, firstn_all, Nat.sub_diag, app_nil_r.
Qed.

Lemma at_eol_inside (w : jsstring) (k : nat) :
  forallb is_dot w = true -> at_eol (skipn k w) = (length w <=? k)%nat.
Proof.
  revert k. induction w as [|c t IH]; intros k Hw.
  - now destruct k.
  - simpl in Hw. apply andb_prop in Hw as [Hc Ht].
    destruct k as [|k]; simpl.
    + unfold is_dot in Hc. now apply negb_true_iff in Hc.
    + now apply IH.
Qed.

(** On a text without line terminator, the prompt pattern matches exactly
    the prompt character followed by white space only: this is how a line
    of output is recognised as the ready prompt of Gemini. *)
Theorem promptPattern_line (line : jsstring) :
  forallb is_dot line = true ->
  (matches promptPattern line = true
   <-> exists w, line = utf16 ">" ++ w /\ forallb is_ws w = true).
Proof.
  intros Hline. unfold matches, promptPattern.
  assert (Hlater : forall c t, line = c :: t ->
            search [Bol; Lit (utf16 ">"); Cls is_ws Star; Eol] (Some c) t = None).
  { intros c t ->. simpl in Hline. apply andb_prop in Hline as [Hc Ht].
    apply search_Bol_inside; [|exact Ht].
    unfold is_dot in Hc. now apply negb_true_iff in Hc. }
  destruct (m_pat [Bol; Lit (utf16 ">"); Cls is_ws Star; Eol] None line)
    as [n|] eqn:Hm.
  - assert (Hs : search [Bol; Lit (utf16 ">"); Cls is_ws Star; Eol] None line
                 = Some (O, n)).
    { now apply search_hit. }
    rewrite Hs. split; [intros _|reflexivity].
    apply m_pat_Bol in Hm. destruct Hm as [_ Hm].
    apply m_pat_Lit in Hm. destruct Hm as (w & n' & -> & _ & Hm).
    exists w. split; [reflexivity|].
    apply m_pat_Cls in Hm. destruct Hm as (k & n'' & Hk & _ & Hm & _).
    cbn [q_cap q_min] in Hk. apply m_pat_Eol in Hm. destruct Hm as [Heol _].
    assert (Hw : forallb is_dot w = true).
    { change (utf16 ">") with [0x3E] in Hline. simpl in Hline.
      exact Hline. }
    rewrite (at_eol_inside w k Hw) in Heol. apply Nat.leb_le in Heol.
    pose proof (span_le is_ws w). apply span_all. lia.
  - assert (Hs : search [Bol; Lit (utf16 ">"); Cls is_ws Star; Eol] None line
                 = None).
    { rewrite (search_miss _ _ _ Hm). destruct line as [|c t]; [reflexivity|].
      now rewrite (Hlater c t eq_refl). }
    rewrite Hs. split; [discriminate|]. intros (w & -> & Hw). exfalso.
    apply span_all in Hw.
    assert (Hone : forall prev,
              m_pat [Cls is_ws Star; Eol] prev w = Some (length w)).
    { intros prev. cbn [m_pat q_cap q_min]. cbv zeta.
      destruct (Nat.ltb_spec (span is_ws w) 0) as [Hlt|_]; [lia|].
      apply first_down_top. rewrite Nat.sub_0_r, Nat.add_0_l, Hw.
      rewrite skipn_all. simpl. f_equal. lia. }
    cbn [m_pat at_bol] in Hm. fold (m_pat [Cls is_ws Star; Eol]) in Hm.
    change (m_pat (Lit (utf16 ">") :: [Cls is_ws Star; Eol]) None
              (utf16 ">" ++ w) = None) in Hm.
    rewrite m_pat_Lit_app, Hone in Hm. discriminate.
Qed.

(** The prompt with two spaces behind it. *)
Lemma promptPattern_line_witness :
  forallb is_dot (utf16 ">  ") = true
  /\ matches promptPattern (utf16 ">  ") = true.
Proof.
  assert (H : forallb is_dot (utf16 ">  ") = true) by reflexivity.
  split; [exact H|].
  apply (promptPattern_line _ H). exists (utf16 "  "). split; reflexivity.
Defined.

End AdapterMore.

(** ** More on [cleanResponse] *)

Module CleanMore.
Import JS Gemini Notions RegexFacts ScanFacts.

(** *** What the result is made of *)

(** A replacement that writes only characters of the text it replaces
    brings no new character. *)
Lemma replace_from_In (r : pattern) (repl : jsstring) :
  (forall prev s n c, m_pat r prev s = Some n -> In c repl -> In c s) ->
  forall s k prev c, In c (replace_from r repl k prev s) -> In c s.
Proof.
  intros Hrepl. induction s as [|a t IH]; intros k prev c.
  - destruct k; cbn [replace_from]; [|tauto].
    destruct (m_pat r prev []) as [n|] eqn:Hm; [|tauto].
    intros H. exact (Hrepl _ _ _ _ Hm H).
  - destruct k as [|k]; cbn [replace_from].
    + destruct (m_pat r prev (a :: t)) as [[|j]|] eqn:Hm.
      * rewrite in_app_iff. intros [H|[->|H]].
        -- exact (Hrepl _ _ _ _ Hm H).
        -- now left.
        -- right. exact (IH _ _ _ H).
      * rewrite in_app_iff. intros [H|H].
        -- exact (Hrepl _ _ _ _ Hm H).
        -- right. exact (IH _ _ _ H).
      * intros [->|H]; [now left | right; exact (IH _ _ _ H)].
    + intros H. right. exact (IH _ _ _ H).
Qed.

Lemma replace_all_erase_In (r : pattern) (s : jsstring) (c : Z) :
  In c (replace_all r [] s) -> In c s.
Proof. apply replace_from_In. intros ? ? ? ? _ []. Qed.

Lemma collapse_In (s : jsstring) (c : Z) :
  In c (collapse_blank_runs s) -> In c s.
Proof.
  apply replace_from_In. clear. intros prev s n c Hm Hc.
  rewrite CleanProps.m_blank_run in Hm.
  destruct (Nat.leb_spec 3 (span is_nl s)) as [Hge|]; [|discriminate].
  destruct (span_nth is_nl s 0 ltac:(lia)) as (a & t & Hs & Ha).
  change (s = a :: t) in Hs. rewrite Hs.
  rewrite CleanProps.is_nl_eqb in Ha. apply Z.eqb_eq in Ha.
  destruct Hc as [<-|[<-|[]]]; left; exact Ha.
Qed.

Lemma strip_ui_In (s : jsstring) (c : Z) : In c (strip_ui s) -> In c s.
Proof.
  unfold strip_ui. generalize ui_patterns. intros rs. revert s.
  induction rs as [|r rs IH]; intros s; simpl; [auto|].
  intros H. apply IH in H. now apply replace_all_erase_In in H.
Qed.

Lemma strip_control_In (s : jsstring) (c : Z) :
  In c (strip_control s) -> In c s.
Proof.
  unfold strip_control. cbv zeta. intros H.
  repeat apply replace_all_erase_In in H. exact H.
Qed.

Lemma skipn_In (n : nat) (s : jsstring) (c : Z) : In c (skipn n s) -> In c s.
Proof.
  revert n. induction s as [|a t IH]; intros n; destruct n; simpl; auto.
  intros H. right. eauto.
Qed.

Lemma after_marker_In (line : jsstring) (c : Z) :
  In c (after_marker line) -> In c line.
Proof.
  unfold after_marker. intros H. apply CleanProps.drop_while_In in H.
  apply skipn_In in H. now apply CleanProps.trim_In.
Qed.

Lemma join_In (sep : jsstring) (parts : list jsstring) (c : Z) :
  In c (join sep parts) ->
  In c sep \/ exists p, In p parts /\ In c p.
Proof.
  induction parts as [|p rest IH]; [intros []|].
  destruct rest as [|q rest].
  - simpl. intros H. right. exists p. auto.
  - change (join sep (p :: q :: rest)) with (p ++ sep ++ join sep (q :: rest)).
    rewrite !in_app_iff. intros [H|[H|H]].
    + right. exists p. split; [now left | exact H].
    + now left.
    + destruct (IH H) as [?|(p' & Hp' & Hc)]; [now left|].
      right. exists p'. split; [now right | exact Hc].
Qed.

Lemma block_text_In (seg : segment) (c : Z) :
  In c (block_text seg) ->
  c = LF \/ exists l, In l (segment_lines seg) /\ In c l.
Proof.
  unfold block_text, segment_lines. intros H. apply join_In in H.
  destruct H as [[<-|[]]|(p & [<-|Hp] & Hc)]; [now left| |].
  - right. exists (fst seg). split; [now left|]. now apply after_marker_In.
  - apply in_flat_map in Hp. destruct Hp as (l & Hl & Hp).
    unfold block_entry in Hp.
    destruct (is_blank_line l); [destruct Hp as [<-|[]]; destruct Hc|].
    destruct (kept_line l); [|destruct Hp].
    destruct Hp as [<-|[]]. right. exists l. split; [now right | exact Hc].
Qed.

Lemma split_lines_single (s : jsstring) :
  ~ In LF s -> split_lines s = [s].
Proof.
  induction s as [|a t IH]; [reflexivity|]. intros Hno. simpl.
  destruct (Z.eqb_spec a LF) as [->|Hne]; [exfalso; apply Hno; now left|].
  rewrite IH; [reflexivity|]. intros H. apply Hno. now right.
Qed.

Lemma extract_response_In (s : jsstring) (c : Z) :
  In c (extract_response s) -> In c s.
Proof.
  destruct (in_dec Z.eq_dec LF s) as [Hnl|Hno].
  - unfold extract_response.
    destruct (lines_segments (split_lines s))
      as (pre & segs & Heq & Hpre & Hsegs & _).
    pose proof (collect_blocks_segments pre segs Hpre Hsegs) as Hb.
    rewrite <- Heq in Hb. cbv zeta. rewrite Hb.
    destruct (0 <? length (map block_text segs))%nat; [|auto].
    intros H. apply join_In in H.
    destruct H as [[<-|[<-|[]]]|(p & Hp & Hc)]; try exact Hnl.
    apply in_map_iff in Hp. destruct Hp as (seg & <- & Hseg).
    apply block_text_In in Hc. destruct Hc as [->|(l & Hl & Hc)]; [exact Hnl|].
    apply (split_lines_chars s l); [|exact Hc].
    rewrite Heq. apply in_or_app. right. apply in_concat.
    exists (segment_lines seg). split; [|exact Hl].
    apply in_map_iff. now exists seg.
  - unfold extract_response. rewrite (split_lines_single s Hno).
    rewrite collect_blocks_finish. cbn [fold_left].
    destruct (is_marker_line s) eqn:Hm.
    + rewrite scan_line_marker by exact Hm. simpl. apply after_marker_In.
    + rewrite scan_line_outside by (auto; reflexivity). simpl. auto.
Qed.

Lemma final_cleanup_In (s : jsstring) (c : Z) :
  In c (final_cleanup s) -> In c s.
Proof.
  unfold final_cleanup, strip_blank_lines. intros H.
  apply CleanProps.trim_In in H. apply replace_all_erase_In in H.
  now apply collapse_In.
Qed.

(** [cleanResponse] writes no character of its own: every character of
    the result is a character of the input. *)
Theorem cleanResponse_no_new_character (R : jsstring) (c : Z) :
  In c (cleanResponse R) -> In c R.
Proof.
  unfold cleanResponse, strip_chrome, strip_box. intros H.
  apply final_cleanup_In, extract_response_In, strip_ui_In in H.
  apply replace_all_erase_In, strip_control_In in H. exact H.
Qed.

(** The digit 4 of the sample's answer. *)
Lemma cleanResponse_no_new_character_witness :
  In 0x34 (cleanResponse sample_output) /\ In 0x34 sample_output.
Proof.
  assert (H : In 0x34 (cleanResponse sample_output))
    by (vm_compute; tauto).
  split; [exact H|]. exact (cleanResponse_no_new_character _ _ H).
Defined.

(** No spinner frame and no box-drawing character is left in the result,
    whatever the input. *)
Theorem cleanResponse_no_glyph (R : jsstring) (c : Z) :
  In c (cleanResponse R) ->
  one_of spinner_frames c = false /\ one_of box_chars c = false.
Proof.
  unfold cleanResponse, strip_chrome. intros H.
  apply final_cleanup_In, extract_response_In, strip_ui_In in H.
  rewrite CleanProps.strip_box_filter in H. apply filter_In in H.
  destruct H as [H Hbox]. apply negb_true_iff in Hbox. split; [|exact Hbox].
  unfold strip_control in H. cbv zeta in H.
  unfold replace_all at 1 in H. unfold re_spinner in H.
  rewrite replace_from_class_once in H. apply filter_In in H.
  destruct H as [_ Hspin]. now apply negb_true_iff in Hspin.
Qed.

Lemma cleanResponse_no_glyph_witness :
  In 0x34 (cleanResponse sample_output)
  /\ one_of spinner_frames 0x34 = false /\ one_of box_chars 0x34 = false.
Proof.
  assert (H : In 0x34 (cleanResponse sample_output))
    by (vm_compute; tauto).
  split; [exact H|]. exact (cleanResponse_no_glyph _ _ H).
Defined.

(** An input of white space only is cleaned to the empty string. *)
Theorem cleanResponse_blank_input (R : jsstring) :
  forallb is_ws R = true -> cleanResponse R = [].
Proof.
  intros HR. destruct (cleanResponse R) as [|c t] eqn:Hc; [reflexivity|].
  exfalso.
  assert (Hin : In c R).
  { assert (H : In c (cleanResponse R)) by (rewrite Hc; now left).
    unfold cleanResponse, strip_chrome, strip_box in H.
    apply final_cleanup_In, extract_response_In, strip_ui_In in H.
    apply replace_all_erase_In, strip_control_In in H. exact H. }
  pose proof (proj1 (forallb_forall _ _) HR c Hin) as Hws.
  unfold cleanResponse, final_cleanup in Hc.
  apply trim_head in Hc. congruence.
Qed.

Lemma cleanResponse_blank_input_witness :
  let R := utf16 "  " ++ [LF; 0x09; LF] in
  forallb is_ws R = true /\ cleanResponse R = [].
Proof.
  intros R. assert (H : forallb is_ws R = true) by reflexivity.
  split; [exact H|]. exact (cleanResponse_blank_input R H).
Defined.

(** *** Runs of newlines in the result *)

Lemma is_nl_lt (c : Z) : is_nl c = true -> is_lt c = true.
Proof.
  rewrite CleanProps.is_nl_eqb. intros H. apply Z.eqb_eq in H. now subst c.
Qed.

Lemma is_lt_ws (c : Z) : is_lt c = true -> is_ws c = true.
Proof.
  unfold is_lt, is_ws, one_of. simpl. intros H.
  repeat (apply orb_prop in H; destruct H as [H|H]);
    try discriminate; apply Z.eqb_eq in H; subst c; reflexivity.
Qed.

Lemma blank_to_eol_false (s : jsstring) :
  blank_to_eol s = false <->
  forall k, (1 <= k <= span is_ws s)%nat -> at_eol (skipn k s) = false.
Proof.
  unfold blank_to_eol. split.
  - intros H k Hk. destruct (at_eol (skipn k s)) eqn:He; [|reflexivity].
    assert (Hex : existsb (fun j => at_eol (skipn j s))
                    (seq 1 (span is_ws s)) = true); [|congruence].
    apply existsb_exists. exists k. split; [apply in_seq; lia | exact He].
  - intros H. destruct (existsb _ _) eqn:Hex; [|reflexivity].
    apply existsb_exists in Hex. destruct Hex as (k & Hk & He).
    apply in_seq in Hk. rewrite H in He by lia. discriminate.
Qed.

(** What [/^\s+$/m] does at a cursor: no match, and then, at the start of
    a line, no end of line behind white space; or the longest stretch of
    white space that ends at the end of a line. *)
Lemma blank_line_cursor prev (s : jsstring) :
  (m_pat re_blank_line prev s = None
   /\ (at_bol prev = true -> blank_to_eol s = false))
  \/ (exists n, m_pat re_blank_line prev s = Some n
       /\ (1 <= n <= span is_ws s)%nat
       /\ at_eol (skipn n s) = true
       /\ forall k, (n < k <= span is_ws s)%nat ->
                    at_eol (skipn k s) = false).
Proof.
  destruct (m_pat re_blank_line prev s) as [n|] eqn:Hm.
  - right. exists n. split; [reflexivity|].
    apply m_pat_Bol in Hm. destruct Hm as [_ Hm].
    apply m_pat_Cls in Hm. destruct Hm as (k & n' & Hk & -> & Hm & Hmax).
    cbn [q_cap q_min] in Hk, Hmax.
    apply m_pat_Eol in Hm. destruct Hm as [Heol Hm]. injection Hm as <-.
    rewrite Nat.add_0_r. split; [exact Hk|]. split; [exact Heol|].
    intros k' Hk'. specialize (Hmax k' Hk'). cbn [m_pat] in Hmax.
    destruct (at_eol (skipn k' s)); [discriminate | reflexivity].
  - left. split; [reflexivity|]. intros Hbol. apply blank_to_eol_false.
    intros k Hk. unfold re_blank_line in Hm. cbn [m_pat q_cap q_min] in Hm.
    rewrite Hbol in Hm. cbv zeta in Hm.
    destruct (Nat.ltb_spec (span is_ws s) 1) as [Hlt|Hge]; [lia|].
    rewrite first_down_None in Hm. specialize (Hm k ltac:(lia)).
    destruct (at_eol (skipn k s)); [discriminate | reflexivity].
Qed.

Lemma blank_line_quiet prev (s : jsstring) :
  blank_to_eol s = false -> m_pat re_blank_line prev s = None.
Proof.
  intros Hq. destruct (blank_line_cursor prev s)
    as [[Hm _]|(n & _ & Hn & Heol & _)]; [exact Hm|].
  rewrite (proj1 (blank_to_eol_false s) Hq n Hn) in Heol. discriminate.
Qed.

Lemma quiet_step (a : Z) (t : jsstring) :
  blank_to_eol (a :: t) = false -> is_ws a = true ->
  blank_to_eol t = false /\ at_eol t = false.
Proof.
  intros Hq Ha. rewrite blank_to_eol_false in Hq. cbn [span] in Hq.
  rewrite Ha in Hq. split.
  - apply blank_to_eol_false. intros k Hk. apply (Hq (S k)). lia.
  - apply (Hq 1%nat). lia.
Qed.

Lemma span_drop (p : Z -> bool) (s : jsstring) (k : nat) :
  (k <= span p s)%nat -> span p (skipn k s) = (span p s - k)%nat.
Proof.
  revert k. induction s as [|c t IH]; intros k Hk.
  - simpl in *. now destruct k.
  - destruct k as [|k]; [now rewrite Nat.sub_0_r|].
    cbn [span] in *. destruct (p c); [|lia].
    cbn [skipn]. rewrite IH by lia. lia.
Qed.

Lemma strip_quiet prev (s : jsstring) :
  blank_to_eol s = false ->
  replace_from re_blank_line [] O prev s
  = match s with
    | [] => []
    | a :: t => a :: replace_from re_blank_line [] O (Some a) t
    end.
Proof.
  intros Hq. destruct s as [|a t]; cbn [replace_from];
    rewrite (blank_line_quiet prev _ Hq); reflexivity.
Qed.

Lemma short_runs_cons (a : Z) (o : jsstring) :
  short_runs o = true ->
  (a = LF -> (span is_nl o <= 1)%nat) ->
  short_runs (a :: o) = true.
Proof.
  intros Ho Ha. cbn [short_runs span]. rewrite Ho, andb_true_r.
  rewrite CleanProps.is_nl_eqb. destruct (Z.eqb_spec a LF) as [->|Hne].
  - specialize (Ha eq_refl). apply Nat.ltb_lt. lia.
  - reflexivity.
Qed.

Lemma span_nl_cons (a : Z) (o : jsstring) :
  a <> LF -> span is_nl (a :: o) = O.
Proof.
  intros Hne. cbn [span]. rewrite CleanProps.is_nl_eqb.
  now destruct (Z.eqb_spec a LF).
Qed.

(** Behind the start of a line, or where no white space ends a line, the
    text without its blank lines starts with one newline at most; nowhere
    does it hold three in a row. *)
Lemma strip_blank_lines_runs (n : nat) :
  forall (s : jsstring) prev, (length s <= n)%nat ->
    let o := replace_from re_blank_line [] O prev s in
    short_runs o = true
    /\ (at_bol prev = true \/ blank_to_eol s = false ->
        (span is_nl o <= 1)%nat).
Proof.
  induction n as [|n IH]; intros s prev Hlen; cbv zeta.
  - destruct s; [|simpl in Hlen; lia]. cbn [replace_from].
    destruct (m_pat re_blank_line prev []); simpl; split; auto.
  - destruct s as [|a t].
    { cbn [replace_from].
      destruct (m_pat re_blank_line prev []); simpl; split; auto. }
    simpl in Hlen.
    destruct (blank_line_cursor prev (a :: t))
      as [[Hm Hq]|(k & Hm & Hk & Heol & Hmax)].
    + cbn [replace_from]. rewrite Hm.
      destruct (IH t (Some a) ltac:(lia)) as [Hruns Hlead]. cbv zeta in *.
      destruct (Z.eq_dec a LF) as [->|Hne].
      * split.
        -- apply short_runs_cons; [exact Hruns|]. intros _.
           apply Hlead. now left.
        -- intros Hcond.
           assert (Hquiet : blank_to_eol (LF :: t) = false)
             by (destruct Hcond as [Hb|Hb]; [exact (Hq Hb) | exact Hb]).
           destruct (quiet_step LF t Hquiet eq_refl) as [Hqt Heolt].
           rewrite (strip_quiet _ t Hqt).
           destruct t as [|y t']; [discriminate|].
           cbn [at_eol] in Heolt. cbn [span].
           rewrite (CleanProps.is_nl_eqb LF), Z.eqb_refl.
           destruct (is_nl y) eqn:Hy; [|lia].
           apply is_nl_lt in Hy. congruence.
      * split.
        -- apply short_runs_cons; [exact Hruns | contradiction].
        -- intros _. rewrite span_nl_cons by exact Hne. lia.
    + cbn [replace_from]. rewrite Hm.
      destruct k as [|k]; [lia|]. cbn [app].
      pose proof (span_le is_ws (a :: t)) as Hsp. simpl length in Hsp.
      rewrite replace_from_skip by lia.
      change (skipn k t) with (skipn (S k) (a :: t)).
      assert (Hquiet : blank_to_eol (skipn (S k) (a :: t)) = false).
      { apply blank_to_eol_false. intros j Hj.
        rewrite span_drop in Hj by lia. rewrite skipn_skipn.
        apply Hmax. lia. }
      assert (Hshort : (length (skipn (S k) (a :: t)) <= n)%nat).
      { rewrite length_skipn. simpl length. lia. }
      destruct (IH _ (last_read (Some a) (firstn k t)) Hshort)
        as [Hruns Hlead]. cbv zeta in *.
      split; [exact Hruns|]. intros _. apply Hlead. now right.
Qed.

Lemma short_runs_skipn (k : nat) (s : jsstring) :
  short_runs s = true -> short_runs (skipn k s) = true.
Proof.
  revert s. induction k as [|k IH]; intros s Hs; [exact Hs|].
  destruct s as [|a t]; [exact Hs|]. cbn [skipn]. apply IH.
  cbn [short_runs] in Hs. now apply andb_prop in Hs.
Qed.

Lemma span_app_le (p : Z -> bool) (a b : jsstring) :
  (span p a <= span p (a ++ b))%nat.
Proof.
  induction a as [|c t IH]; simpl; [lia|]. destruct (p c); lia.
Qed.

Lemma short_runs_prefix (a b : jsstring) :
  short_runs (a ++ b) = true -> short_runs a = true.
Proof.
  induction a as [|c t IH]; [reflexivity|].
  rewrite <- app_comm_cons. intros H.
  pose proof (span_app_le is_nl (c :: t) b) as Hle.
  rewrite <- app_comm_cons in Hle.
  cbn [short_runs] in H |- *. apply andb_prop in H as [Hsp Ht].
  rewrite (IH Ht), andb_true_r. apply Nat.ltb_lt in Hsp.
  apply Nat.ltb_lt. lia.
Qed.

Lemma short_runs_drop_while (p : Z -> bool) (s : jsstring) :
  short_runs s = true -> short_runs (drop_while p s) = true.
Proof. rewrite <- span_skipn. apply short_runs_skipn. Qed.

Lemma short_runs_drop_end (p : Z -> bool) (s : jsstring) :
  short_runs s = true -> short_runs (rev (drop_while p (rev s))) = true.
Proof.
  intros Hs. apply (short_runs_prefix _ (rev (firstn (span p (rev s)) (rev s)))).
  rewrite <- rev_app_distr, <- span_skipn, firstn_skipn, rev_involutive.
  exact Hs.
Qed.

Lemma short_runs_trim (s : jsstring) :
  short_runs s = true -> short_runs (trim s) = true.
Proof.
  intros Hs. unfold trim. apply short_runs_drop_end.
  now apply short_runs_drop_while.
Qed.

Lemma final_cleanup_short_runs (s : jsstring) :
  short_runs (final_cleanup s) = true.
Proof.
  unfold final_cleanup, strip_blank_lines, replace_all.
  apply short_runs_trim.
  exact (proj1 (strip_blank_lines_runs _ _ None (Nat.le_refl _))).
Qed.

(** The result never holds three newlines in a row, whatever the input:
    [short_runs] of it holds, and the string of three newlines does not
    occur in it. *)
Theorem cleanResponse_no_blank_run (R : jsstring) :
  short_runs (cleanResponse R) = true
  /\ ~ occurs_in [LF; LF; LF] (cleanResponse R).
Proof.
  pose proof (final_cleanup_short_runs (extract_response (strip_chrome R)))
    as Hs. fold (cleanResponse R) in Hs. split; [exact Hs|].
  intros (pre & post & Heq). rewrite Heq in Hs.
  apply (short_runs_skipn (length pre)) in Hs.
  rewrite skipn_app, skipn_all, Nat.sub_diag in Hs. simpl in Hs.
  discriminate.
Qed.

(** *** The final cleanup, twice *)

Lemma quiet_head (b : Z) (o : jsstring) :
  is_ws b = false -> blank_to_eol (b :: o) = false.
Proof. intros Hb. unfold blank_to_eol. cbn [span]. now rewrite Hb. Qed.

Lemma quiet_cons (b : Z) (o : jsstring) :
  is_ws b = true -> blank_to_eol o = false -> at_eol o = false ->
  blank_to_eol (b :: o) = false.
Proof.
  intros Hb Hq He. apply blank_to_eol_false. cbn [span]. rewrite Hb.
  intros k Hk. destruct k as [|[|j]]; [lia | exact He |].
  change (skipn (S (S j)) (b :: o)) with (skipn (S j) o).
  apply (proj1 (blank_to_eol_false o) Hq). lia.
Qed.

(** Where no white space ends a line, the text is copied up to the first
    character that is no white space. *)
Lemma strip_quiet_out (t : jsstring) :
  forall p, blank_to_eol t = false ->
    blank_to_eol (replace_from re_blank_line [] O p t) = false
    /\ at_eol (replace_from re_blank_line [] O p t) = at_eol t.
Proof.
  induction t as [|a t IH]; intros p Hq; rewrite (strip_quiet p _ Hq).
  - split; reflexivity.
  - split; [|reflexivity].
    destruct (is_ws a) eqn:Ha; [|now apply quiet_head].
    destruct (quiet_step a t Hq Ha) as [Hqt He].
    destruct (IH (Some a) Hqt) as [H1 H2].
    apply quiet_cons; [exact Ha | exact H1 | congruence].
Qed.

(** No line of the text without its blank lines is blank: at the start of
    a line of the result, no white space ends the line.  [pin] is the
    character read before the cursor, [pout] the one written. *)
Lemma strip_cursors (n : nat) :
  forall (u : jsstring) pin pout, (length u <= n)%nat ->
    pout = pin \/ blank_to_eol u = false ->
    all_cursors (fun p s' => at_bol p = true -> blank_to_eol s' = false)
      pout (replace_from re_blank_line [] O pin u).
Proof.
  induction n as [|n IH]; intros u pin pout Hlen Hrel.
  - destruct u; [|simpl in Hlen; lia]. cbn [replace_from].
    destruct (m_pat re_blank_line pin []); simpl; split; auto.
  - destruct u as [|a t].
    { cbn [replace_from].
      destruct (m_pat re_blank_line pin []); simpl; split; auto. }
    simpl in Hlen.
    destruct (blank_line_cursor pin (a :: t))
      as [[Hm Hq]|(k & Hm & Hk & Heol & Hmax)].
    + assert (Hhere : at_bol pout = true ->
                blank_to_eol (replace_from re_blank_line [] O pin (a :: t))
                = false).
      { intros Hb. apply strip_quiet_out.
        destruct Hrel as [->|Hquiet]; auto. }
      revert Hhere. cbn [replace_from]. rewrite Hm. intros Hhere.
      cbn [all_cursors]. split; [exact Hhere|].
      apply IH; [lia | now left].
    + assert (Hpin : pout = pin).
      { destruct Hrel as [H|Hquiet]; [exact H|].
        rewrite (blank_line_quiet pin _ Hquiet) in Hm. discriminate. }
      cbn [replace_from]. rewrite Hm.
      destruct k as [|k]; [lia|]. cbn [app].
      pose proof (span_le is_ws (a :: t)) as Hsp. simpl length in Hsp.
      rewrite replace_from_skip by lia.
      change (skipn k t) with (skipn (S k) (a :: t)).
      apply IH.
      * rewrite length_skipn. simpl length. lia.
      * right. apply blank_to_eol_false. intros j Hj.
        rewrite span_drop in Hj by lia. rewrite skipn_skipn.
        apply Hmax. lia.
Qed.

Lemma short_runs_cursors (t : jsstring) :
  short_runs t = true ->
  forall p, all_cursors (fun p' s' => m_pat re_blank_run p' s' = None) p t.
Proof.
  induction t as [|c t IH]; intros H p; cbn [short_runs] in H;
    apply andb_prop in H as [Hsp Ht]; apply Nat.ltb_lt in Hsp;
    cbn [all_cursors]; (split; [|auto]); rewrite CleanProps.m_blank_run.
  - destruct (Nat.leb_spec 3 (span is_nl [])); [lia | reflexivity].
  - destruct (Nat.leb_spec 3 (span is_nl (c :: t))); [lia | reflexivity].
Qed.

Lemma span_app_short (p : Z -> bool) (a b : jsstring) :
  forallb p a = false -> span p (a ++ b) = span p a.
Proof.
  induction a as [|c t IH]; simpl; [discriminate|].
  destruct (p c); simpl; auto.
Qed.

Lemma blank_to_eol_app (s post : jsstring) :
  forallb is_ws s = false ->
  blank_to_eol (s ++ post) = false -> blank_to_eol s = false.
Proof.
  intros Hs H. rewrite blank_to_eol_false in H.
  rewrite (span_app_short _ _ _ Hs) in H.
  apply blank_to_eol_false. intros k Hk. specialize (H k Hk).
  assert (Hlt : (k < length s)%nat).
  { pose proof (span_le is_ws s) as Hle.
    assert (span is_ws s <> length s); [|lia].
    intros Heq. apply span_all in Heq. congruence. }
  rewrite skipn_app in H. replace (k - length s)%nat with O in H by lia.
  destruct (skipn k s) as [|x r] eqn:Hsk.
  - apply (f_equal (@length Z)) in Hsk. rewrite length_skipn in Hsk.
    simpl in Hsk. lia.
  - exact H.
Qed.

Lemma cursors_drop_end (r : jsstring) (d : Z) (post : jsstring) :
  is_ws d = false ->
  forall p,
    all_cursors (fun p s' => at_bol p = true -> blank_to_eol s' = false)
      p ((r ++ [d]) ++ post) ->
    all_cursors (fun p s' => at_bol p = true -> blank_to_eol s' = false)
      p (r ++ [d]).
Proof.
  intros Hd. induction r as [|c r IH]; intros p.
  - intros _. cbn [app all_cursors]. repeat split; auto.
    intros _. now apply quiet_head.
  - rewrite <- !app_comm_cons. cbn [all_cursors]. intros [Hhere Htail].
    split; [|apply IH; exact Htail].
    intros Hb. apply (blank_to_eol_app (c :: r ++ [d]) post).
    + rewrite app_comm_cons, forallb_app. cbn [forallb]. rewrite Hd.
      now rewrite andb_false_r.
    + apply Hhere, Hb.
Qed.

Lemma all_cursors_skipn P (k : nat) :
  forall p (o : jsstring),
    all_cursors P p o -> all_cursors P (last_read p (firstn k o)) (skipn k o).
Proof.
  induction k as [|k IH]; intros p o H; [exact H|].
  destruct o as [|c t]; [exact H|]. cbn [firstn skipn].
  change (last_read p (c :: firstn k t))
    with (last_read (Some c) (firstn k t)).
  apply IH. apply H.
Qed.

Lemma last_or_nil {A} (l : list A) : l = [] \/ exists r d, l = r ++ [d].
Proof. induction l using rev_ind; [now left | right; eauto]. Qed.

Lemma trim_cursors (o : jsstring) p :
  all_cursors (fun p s' => at_bol p = true -> blank_to_eol s' = false) p o ->
  all_cursors (fun p s' => at_bol p = true -> blank_to_eol s' = false)
    None (trim o).
Proof.
  intros H.
  apply (all_cursors_skipn _ (span is_ws o)) in H. rewrite span_skipn in H.
  assert (Hsplit :
    drop_while is_ws o
    = trim o ++ rev (firstn (span is_ws (rev (drop_while is_ws o)))
                       (rev (drop_while is_ws o)))).
  { unfold trim. rewrite <- rev_app_distr.
    rewrite <- (span_skipn is_ws (rev (drop_while is_ws o))).
    now rewrite firstn_skipn, rev_involutive. }
  rewrite Hsplit in H. clear Hsplit.
  destruct (trim o) as [|c t] eqn:Ht.
  - simpl. split; auto.
  - pose proof (trim_head _ _ _ Ht) as Hc.
    destruct (last_or_nil (c :: t)) as [Hnil|(r & d & Hr)]; [discriminate|].
    rewrite Hr in Ht. pose proof (trim_last _ _ _ Ht) as Hd.
    rewrite Hr in H. apply (cursors_drop_end r d _ Hd) in H.
    rewrite <- Hr in H. cbn [all_cursors] in H |- *.
    destruct H as [_ Htail]. split; [|exact Htail].
    intros _. now apply quiet_head.
Qed.

Lemma final_cleanup_fixed (t : jsstring) :
  short_runs t = true ->
  all_cursors (fun p s' => at_bol p = true -> blank_to_eol s' = false)
    None t ->
  no_outer_space t = true ->
  final_cleanup t = t.
Proof.
  intros Hruns Hcur Hout.
  unfold final_cleanup, collapse_blank_runs, strip_blank_lines.
  rewrite (replace_all_no_match re_blank_run)
    by (apply short_runs_cursors; exact Hruns).
  rewrite (replace_all_no_match re_blank_line).
  - now apply CleanProps.no_outer_space_trim.
  - revert Hcur. apply all_cursors_impl. intros p s' Hquiet.
    destruct (m_pat re_blank_line p s') as [n|] eqn:Hm; [|reflexivity].
    pose proof (m_pat_Bol _ _ _ _ Hm) as [Hb _].
    rewrite (blank_line_quiet p s' (Hquiet Hb)) in Hm. discriminate.
Qed.

(** The final cleanup is idempotent: cleaning a cleaned text once more
    (collapse of the newline runs, removal of the blank lines, trim)
    changes nothing.  In particular it leaves every result of
    [cleanResponse] as it is: a second pass of [cleanResponse] can only
    change its result by stripping chrome or extracting a block. *)
Theorem final_cleanup_idempotent (s : jsstring) :
  final_cleanup (final_cleanup s) = final_cleanup s
  /\ forall R, final_cleanup (cleanResponse R) = cleanResponse R.
Proof.
  assert (H : forall u, final_cleanup (final_cleanup u) = final_cleanup u).
  { intros u. apply final_cleanup_fixed.
    - apply final_cleanup_short_runs.
    - unfold final_cleanup, strip_blank_lines, replace_all.
      apply (trim_cursors _ None).
      apply (strip_cursors _ _ None None (Nat.le_refl _)). now left.
    - apply CleanProps.trim_no_outer_space. }
  split; [apply H|]. intros R. apply H.
Qed.

End CleanMore.

(** ** The final cleanup, and [cleanResponse] on every input *)

Module CleanFinal.
Import JS Gemini Config Runtime Notions RegexFacts ScanFacts.

(** *** Replacements inside a class of characters *)

(** A replacement whose matches lie inside a class, and which writes
    characters of the class only, leaves the other characters alone. *)
Lemma replace_from_outside (cls : Z -> bool) (r : pattern) (repl : jsstring) :
  (forall prev s n, m_pat r prev s = Some n -> (n <= span cls s)%nat) ->
  List.filter (fun c => negb (cls c)) repl = [] ->
  forall s k prev, (k <= span cls s)%nat ->
    List.filter (fun c => negb (cls c)) (replace_from r repl k prev s)
    = List.filter (fun c => negb (cls c)) s.
Proof.
  intros Hin Hrepl. induction s as [|c t IH]; intros k prev Hk.
  - simpl in Hk. replace k with O by lia. cbn [replace_from].
    destruct (m_pat r prev []); [exact Hrepl | reflexivity].
  - destruct k as [|k]; cbn [replace_from].
    + destruct (m_pat r prev (c :: t)) as [[|j]|] eqn:Hm.
      * rewrite List.filter_app, Hrepl. cbn [app List.filter].
        rewrite (IH O (Some c)) by lia. reflexivity.
      * pose proof (Hin _ _ _ Hm) as Hj. cbn [span] in Hj.
        destruct (cls c) eqn:Hc; [|lia].
        rewrite List.filter_app, Hrepl. cbn [app List.filter].
        rewrite Hc. cbn [negb]. apply IH. lia.
      * cbn [List.filter]. rewrite (IH O (Some c)) by lia. reflexivity.
    + cbn [span] in Hk. destruct (cls c) eqn:Hc; [|lia].
      cbn [List.filter]. rewrite Hc. cbn [negb]. apply IH. lia.
Qed.

Lemma span_before (cls : Z -> bool) (C : jsstring) (x : Z) (V : jsstring) :
  cls x = false -> (span cls (C ++ x :: V) <= length C)%nat.
Proof.
  intros Hx. induction C as [|c C IH]; simpl.
  - rewrite Hx. lia.
  - destruct (cls c); lia.
Qed.

(** Such a replacement does not reach across a character outside the
    class: the character stays, and what is behind it is replaced as if
    the text started there. *)
Lemma replace_through (cls : Z -> bool) (r : pattern) (repl : jsstring)
  (x : Z) :
  (forall prev s n, m_pat r prev s = Some n -> (n <= span cls s)%nat) ->
  cls x = false ->
  forall (n : nat) (C : jsstring) prev (V : jsstring),
    (length C <= n)%nat ->
    exists A, replace_from r repl O prev (C ++ x :: V)
              = A ++ x :: replace_from r repl O (Some x) V.
Proof.
  intros Hin Hx.
  assert (Hstop : forall prev V,
    exists A, replace_from r repl O prev (x :: V)
              = A ++ x :: replace_from r repl O (Some x) V).
  { intros prev V. cbn [replace_from].
    destruct (m_pat r prev (x :: V)) as [[|j]|] eqn:Hm.
    - exists repl. reflexivity.
    - apply Hin in Hm. cbn [span] in Hm. rewrite Hx in Hm. lia.
    - exists []. reflexivity. }
  induction n as [|n IH]; intros C prev V Hlen.
  - destruct C; [apply Hstop | simpl in Hlen; lia].
  - destruct C as [|c C]; [apply Hstop|]. simpl in Hlen.
    rewrite <- app_comm_cons. cbn [replace_from].
    destruct (m_pat r prev (c :: C ++ x :: V)) as [[|j]|] eqn:Hm.
    + destruct (IH C (Some c) V ltac:(lia)) as (A & ->).
      exists (repl ++ c :: A). now rewrite <- app_assoc.
    + apply Hin in Hm. rewrite app_comm_cons in Hm.
      pose proof (span_before cls (c :: C) x V Hx) as Hsp.
      simpl length in Hsp.
      rewrite replace_from_skip by (rewrite length_app; lia).
      rewrite skipn_app. replace (j - length C)%nat with O by lia.
      cbn [skipn].
      destruct (IH (skipn j C) (last_read (Some c) (firstn j (C ++ x :: V)))
                  V) as (A & ->).
      { rewrite length_skipn. lia. }
      exists (repl ++ A). now rewrite <- app_assoc.
    + destruct (IH C (Some c) V ltac:(lia)) as (A & ->).
      exists (c :: A). reflexivity.
Qed.

Lemma blank_run_in_span prev (s : jsstring) (n : nat) :
  m_pat re_blank_run prev s = Some n -> (n <= span is_nl s)%nat.
Proof.
  rewrite CleanProps.m_blank_run.
  destruct (3 <=? span is_nl s)%nat; [|discriminate]. intros [= <-]. lia.
Qed.

Lemma blank_line_in_span prev (s : jsstring) (n : nat) :
  m_pat re_blank_line prev s = Some n -> (n <= span is_ws s)%nat.
Proof.
  intros Hm.
  destruct (CleanMore.blank_line_cursor prev s)
    as [[Hnone _]|(n' & Hm' & Hn & _)]; [congruence|].
  rewrite Hm in Hm'. injection Hm' as ->. lia.
Qed.

Lemma not_ws_not_lt (x : Z) : is_ws x = false -> is_lt x = false.
Proof.
  intros Hx. destruct (is_lt x) eqn:Hl; [|reflexivity].
  apply CleanMore.is_lt_ws in Hl. congruence.
Qed.

Lemma not_ws_not_nl (x : Z) : is_ws x = false -> is_nl x = false.
Proof.
  intros Hx. destruct (is_nl x) eqn:Hn; [|reflexivity].
  apply CleanMore.is_nl_lt in Hn. apply not_ws_not_lt in Hx. congruence.
Qed.

(** *** The lines of a text without blank lines *)

Lemma split_lines_head (o l : jsstring) (ls : list jsstring) :
  split_lines o = l :: ls -> exists rest, o = l ++ rest /\ at_eol rest = true.
Proof.
  revert l ls. induction o as [|c t IH]; intros l ls; cbn [split_lines].
  - intros [= <- <-]. exists []. split; reflexivity.
  - destruct (Z.eqb_spec c LF) as [->|Hne].
    + intros [= <- <-]. exists (LF :: t). split; reflexivity.
    + pose proof (split_lines_nonempty t) as Hne'.
      destruct (split_lines t) as [|l0 ls0] eqn:Hs; [contradiction|].
      intros [= <- <-]. destruct (IH l0 ls0 eq_refl) as (rest & -> & Hrest).
      exists rest. split; [reflexivity | exact Hrest].
Qed.

Lemma span_app_ge (p : Z -> bool) (a b : jsstring) :
  forallb p a = true -> (length a <= span p (a ++ b))%nat.
Proof.
  induction a as [|c t IH]; simpl; [lia|].
  destruct (p c); simpl; [|discriminate]. intros H. specialize (IH H). lia.
Qed.

(** Where no white space ends a line at a line start, a line is empty or
    holds a character that is no white space. *)
Lemma lines_not_blank (o : jsstring) :
  forall p,
    all_cursors (fun p s' => at_bol p = true -> blank_to_eol s' = false) p o ->
    Forall (fun l => l = [] \/ forallb is_ws l = false) (tl (split_lines o))
    /\ (at_bol p = true ->
        hd [] (split_lines o) = []
        \/ forallb is_ws (hd [] (split_lines o)) = false).
Proof.
  induction o as [|c t IH]; intros p Hcur.
  - simpl. split; [constructor | now left].
  - cbn [all_cursors] in Hcur. destruct Hcur as [Hhere Htail].
    destruct (IH (Some c) Htail) as [Hrest Hfirst].
    cbn [split_lines]. destruct (Z.eqb_spec c LF) as [->|Hne].
    + cbn [tl hd]. split; [|now left].
      pose proof (split_lines_nonempty t) as Hne'.
      destruct (split_lines t) as [|l0 ls0] eqn:Hs; [contradiction|].
      constructor; [exact (Hfirst eq_refl) | exact Hrest].
    + pose proof (split_lines_nonempty t) as Hne'.
      destruct (split_lines t) as [|l0 ls0] eqn:Hs; [contradiction|].
      cbn [tl hd] in *. split; [exact Hrest|].
      intros Hb. right.
      destruct (forallb is_ws (c :: l0)) eqn:Hall; [|reflexivity].
      exfalso. destruct (split_lines_head t l0 ls0 Hs) as (rest & -> & Heol).
      pose proof (proj1 (CleanMore.blank_to_eol_false _) (Hhere Hb)
                    (length (c :: l0))) as Hk.
      rewrite app_comm_cons in Hk.
      pose proof (span_app_ge is_ws (c :: l0) rest Hall) as Hsp.
      assert (Hskip : skipn (length (c :: l0)) ((c :: l0) ++ rest) = rest).
      { rewrite skipn_app, skipn_all, Nat.sub_diag. reflexivity. }
      rewrite Hskip, Heol in Hk.
      assert (Hfalse : true = false); [|discriminate].
      apply Hk. simpl length in *. lia.
Qed.

Lemma lines_not_blank_all (o : jsstring) (line : jsstring) :
  all_cursors (fun p s' => at_bol p = true -> blank_to_eol s' = false)
    None o ->
  In line (split_lines o) -> line = [] \/ forallb is_ws line = false.
Proof.
  intros Hcur Hin. destruct (lines_not_blank o None Hcur) as [Hrest Hfirst].
  destruct (split_lines o) as [|l0 ls0]; [destruct Hin|].
  cbn [tl hd] in *. destruct Hin as [<-|Hin]; [exact (Hfirst eq_refl)|].
  exact (proj1 (List.Forall_forall _ _) Hrest _ Hin).
Qed.

(** *** A run of newlines between two characters that are no white space *)

Lemma blank_line_not_bol prev (s : jsstring) :
  at_bol prev = false -> m_pat re_blank_line prev s = None.
Proof. intros H. unfold re_blank_line. cbn [m_pat]. now rewrite H. Qed.

(** The removal of the blank lines leaves such a run alone. *)
Lemma strip_run (x y : Z) (j : nat) (W : jsstring) :
  is_ws x = false -> is_ws y = false -> (j <= 2)%nat ->
  replace_from re_blank_line [] O (Some x) (repeat LF j ++ y :: W)
  = repeat LF j ++ y :: replace_from re_blank_line [] O (Some y) W.
Proof.
  intros Hx Hy Hj.
  assert (Hy' : forall p, replace_from re_blank_line [] O p (y :: W)
                          = y :: replace_from re_blank_line [] O (Some y) W).
  { intros p.
    exact (CleanMore.strip_quiet p (y :: W) (CleanMore.quiet_head y W Hy)). }
  assert (Hx' : at_bol (Some x) = false) by (apply not_ws_not_lt, Hx).
  assert (Hstep : forall t,
            replace_from re_blank_line [] O (Some x) (LF :: t)
            = LF :: replace_from re_blank_line [] O (Some LF) t).
  { intros t. cbn [replace_from].
    now rewrite (blank_line_not_bol _ _ Hx'). }
  destruct j as [|[|[|j]]]; [| | |lia]; cbn [repeat app].
  - apply Hy'.
  - now rewrite Hstep, Hy'.
  - rewrite Hstep.
    assert (Hq : blank_to_eol (LF :: y :: W) = false).
    { apply CleanMore.quiet_cons; [reflexivity | |].
      - now apply CleanMore.quiet_head.
      - cbn [at_eol]. now apply not_ws_not_lt. }
    rewrite (CleanMore.strip_quiet (Some LF) _ Hq). now rewrite Hy'.
Qed.

Lemma drop_while_through (cls : Z -> bool) (C : jsstring) (x : Z)
  (V : jsstring) :
  cls x = false -> exists A, drop_while cls (C ++ x :: V) = A ++ x :: V.
Proof.
  intros Hx. induction C as [|c C (A & IH)]; simpl.
  - rewrite Hx. now exists [].
  - destruct (cls c); [now exists A | now exists (c :: C)].
Qed.

Lemma trim_through (A : jsstring) (x : Z) (M : jsstring) (y : Z)
  (B : jsstring) :
  is_ws x = false -> is_ws y = false ->
  exists A' B', trim (A ++ x :: M ++ y :: B) = A' ++ x :: M ++ y :: B'.
Proof.
  intros Hx Hy. unfold trim.
  destruct (drop_while_through is_ws A x (M ++ y :: B) Hx) as (A' & ->).
  assert (Hrev : rev (A' ++ x :: M ++ y :: B)
                 = rev B ++ y :: rev (A' ++ x :: M)).
  { change (A' ++ x :: M ++ y :: B) with (A' ++ (x :: M) ++ y :: B).
    rewrite (app_assoc A' (x :: M) (y :: B)), rev_app_distr. cbn [rev].
    rewrite <- app_assoc. reflexivity. }
  rewrite Hrev.
  destruct (drop_while_through is_ws (rev B) y (rev (A' ++ x :: M)) Hy)
    as (B' & ->).
  exists A', (rev B'). rewrite rev_app_distr. cbn [rev].
  rewrite rev_involutive, <- !app_assoc. reflexivity.
Qed.

Lemma collapsed_run_short (k : nat) :
  exists j, (j <= 2)%nat /\ collapsed_run k = repeat LF j.
Proof.
  unfold collapsed_run. destruct (Nat.leb_spec 3 k).
  - exists 2%nat. split; [lia | reflexivity].
  - exists k. split; [lia | reflexivity].
Qed.

Lemma final_cleanup_run (pre post : jsstring) (x y : Z) (k : nat) :
  is_ws x = false -> is_ws y = false ->
  exists A B,
    final_cleanup (pre ++ [x] ++ repeat LF k ++ [y] ++ post)
    = A ++ [x] ++ collapsed_run k ++ [y] ++ B.
Proof.
  intros Hx Hy. unfold final_cleanup, collapse_blank_runs, strip_blank_lines,
    replace_all. cbn [app].
  destruct (replace_through is_nl re_blank_run [LF; LF] x blank_run_in_span
              (not_ws_not_nl x Hx) _ pre None (repeat LF k ++ y :: post)
              (Nat.le_refl _)) as (A1 & ->).
  rewrite CleanProps.collapse_run
    by (cbn [starts_with_newline]; rewrite <- CleanProps.is_nl_eqb;
        now apply not_ws_not_nl).
  rewrite CleanProps.collapse_keep
    by (cbn [span]; rewrite (not_ws_not_nl y Hy); lia).
  destruct (collapsed_run_short k) as (j & Hj & ->).
  destruct (replace_through is_ws re_blank_line [] x blank_line_in_span Hx
              _ A1 None
              (repeat LF j ++ y :: replace_from re_blank_run [LF; LF] O None post)
              (Nat.le_refl _)) as (A2 & ->).
  rewrite (strip_run x y j _ Hx Hy Hj).
  destruct (trim_through A2 x (repeat LF j) y
              (replace_from re_blank_line [] O (Some y)
                 (replace_from re_blank_run [LF; LF] O None post)) Hx Hy)
    as (A & B & ->).
  exists A, B. reflexivity.
Qed.

(** C5, amended.  The final cleanup of [cleanResponse] is three steps.
    The collapse replaces every run of three or more newline characters
    (two or more blank lines) by exactly two (one blank line) and leaves a
    run of one or two as it is.  The removal of the blank lines deletes
    white space and nothing else, and no line of what it returns is made
    of white space only; the same holds of every result of
    [cleanResponse].  Through the whole cleanup a run of newlines that
    stands between two characters that are no white space comes out as the
    collapse leaves it.  The trim leaves no white space at either end. *)
Theorem final_cleanup_collapse :
  (forall R,
     cleanResponse R =
     trim (strip_blank_lines (collapse_blank_runs
       (extract_response (strip_chrome R)))))
  /\ (forall (pre post : jsstring) (k : nat),
        ends_with_newline pre = false -> starts_with_newline post = false ->
        collapse_blank_runs (pre ++ repeat LF k ++ post)
        = collapse_blank_runs pre ++ collapsed_run k
          ++ collapse_blank_runs post)
  /\ (forall s,
        List.filter (fun c => negb (is_ws c)) (strip_blank_lines s)
        = List.filter (fun c => negb (is_ws c)) s)
  /\ (forall s line,
        In line (split_lines (strip_blank_lines s)) ->
        line = [] \/ forallb is_ws line = false)
  /\ (forall R line,
        In line (split_lines (cleanResponse R)) ->
        line = [] \/ forallb is_ws line = false)
  /\ (forall (pre post : jsstring) (x y : Z) (k : nat),
        is_ws x = false -> is_ws y = false ->
        exists A B,
          final_cleanup (pre ++ [x] ++ repeat LF k ++ [y] ++ post)
          = A ++ [x] ++ collapsed_run k ++ [y] ++ B)
  /\ (forall R, no_outer_space (cleanResponse R) = true).
Proof.
  split; [reflexivity|]. split; [|split; [|split; [|split; [|split]]]].
  - intros pre post k Hpre Hpost. unfold collapse_blank_runs, replace_all.
    rewrite (CleanProps.collapse_app pre _ O None None) by (auto; lia).
    now rewrite CleanProps.collapse_run.
  - intros s. unfold strip_blank_lines, replace_all.
    apply (replace_from_outside is_ws re_blank_line [] blank_line_in_span
             eq_refl s O None). lia.
  - intros s line. apply lines_not_blank_all.
    unfold strip_blank_lines, replace_all.
    apply (CleanMore.strip_cursors _ _ None None (Nat.le_refl _)). now left.
  - intros R line. apply lines_not_blank_all.
    unfold cleanResponse, final_cleanup, strip_blank_lines, replace_all.
    apply (CleanMore.trim_cursors _ None).
    apply (CleanMore.strip_cursors _ _ None None (Nat.le_refl _)). now left.
  - intros pre post x y k. apply final_cleanup_run.
  - intros R. apply CleanProps.trim_no_outer_space.
Qed.

(** Four newlines between two words become two, and two stay two, in the
    collapse and through the whole cleanup; two lines of one space each
    between two words go with the newline between them. *)
Lemma final_cleanup_collapse_witness :
  ends_with_newline (utf16 "a") = false
  /\ starts_with_newline (utf16 "b") = false
  /\ collapse_blank_runs (utf16 "a" ++ repeat LF 4 ++ utf16 "b")
     = utf16 "a" ++ [LF; LF] ++ utf16 "b"
  /\ collapse_blank_runs (utf16 "a" ++ repeat LF 2 ++ utf16 "b")
     = utf16 "a" ++ [LF; LF] ++ utf16 "b"
  /\ (exists A B,
        final_cleanup (utf16 "a" ++ repeat LF 4 ++ utf16 "b")
        = A ++ utf16 "a" ++ [LF; LF] ++ utf16 "b" ++ B)
  /\ final_cleanup (utf16 "a" ++ [LF; 0x20; LF; 0x20; LF] ++ utf16 "b")
     = utf16 "a" ++ [LF; LF] ++ utf16 "b".
Proof.
  assert (Ha : ends_with_newline (utf16 "a") = false) by reflexivity.
  assert (Hb : starts_with_newline (utf16 "b") = false) by reflexivity.
  destruct final_cleanup_collapse as (_ & Hrun & _ & _ & _ & Hbetween & _).
  split; [exact Ha|]. split; [exact Hb|]. split; [|split; [|split]].
  - rewrite (Hrun _ _ 4%nat Ha Hb). reflexivity.
  - rewrite (Hrun _ _ 2%nat Ha Hb). reflexivity.
  - exact (Hbetween [] [] 0x61 0x62 4%nat eq_refl eq_refl).
  - reflexivity.
Defined.

(** *** What [cleanResponse] keeps of its input *)





















End CleanFinal.

(** ** The configuration store, and the tool list *)

Module StoreProps.
Import JS Config Store Notions.

Section Host.

Context {number : Type}.
Variable world : Type.
Variable homedir : jsstring.
Variable path_join : list jsstring -> jsstring.
Variable existsSync : jsstring -> world -> bool.
Variable readFileSync : jsstring -> world -> throws jsstring.
Variable mkdirSync : jsstring -> io world unit.
Variable writeFileSync : jsstring -> jsstring -> io world unit.
Variable console_warn : jsstring -> world -> world.
Variable JSON_parse : jsstring -> throws (jsval number).
Variable JSON_stringify : jsval number -> throws jsstring.
Variable AIC_DEFAULT_TOOL : option jsstring.
Variable host_lower : jsstring -> jsstring.
Variable number_truthy : number -> bool.

Abbreviation lower := (toLowerCase host_lower).
Abbreviation dir := (Store.configDir homedir path_join).
Abbreviation path := (Store.configPath homedir path_join).
Abbreviation ensure :=
  (ensureConfigDir world homedir path_join existsSync mkdirSync).
Abbreviation load_config :=
  (@Store.load number world homedir path_join existsSync readFileSync
     console_warn JSON_parse).
Abbreviation get_default :=
  (@getDefaultTool number world homedir path_join existsSync readFileSync
     console_warn JSON_parse AIC_DEFAULT_TOOL host_lower number_truthy).
Abbreviation set_default :=
  (@setDefaultTool number world homedir path_join existsSync readFileSync
     mkdirSync writeFileSync console_warn JSON_parse JSON_stringify
     host_lower).
Abbreviation warning := (utf16 "Failed to load config, using defaults").
Abbreviation DEFAULTS := (@DEFAULT_CONFIG number).
Abbreviation key_defaultTool := (utf16 "defaultTool").
Abbreviation key_tools := (utf16 "tools").

(** The environment does not choose the tool: the variable is not set, or
    its lowered value is no tool. *)
Abbreviation env_silent :=
  (AIC_DEFAULT_TOOL = None
   \/ exists e, AIC_DEFAULT_TOOL = Some e /\ ~ In (lower e) validTools).

Lemma includes_In (l : list jsstring) (x : jsstring) :
  includes l x = true <-> In x l.
Proof.
  unfold includes. rewrite bool_decide_eq_true. apply list_elem_of_In.
Qed.

Lemma includes_not_In (l : list jsstring) (x : jsstring) :
  includes l x = false <-> ~ In x l.
Proof.
  rewrite <- includes_In. destruct (includes l x); split; intros H;
    congruence.
Qed.

Lemma valid_nonempty (t : jsstring) : In t validTools -> at_eos t = false.
Proof. intros [<-|[<-|[]]]; reflexivity. Qed.

Lemma lower_valid_nonempty (s : jsstring) :
  In (lower s) validTools -> at_eos s = false.
Proof.
  destruct s as [|c t]; [|reflexivity]. intros H.
  apply valid_nonempty in H. discriminate.
Qed.

Lemma env_choice_Some (e : jsstring) :
  AIC_DEFAULT_TOOL = Some e -> In (lower e) validTools ->
  env_choice AIC_DEFAULT_TOOL host_lower = Some (lower e).
Proof.
  intros He Hin. unfold env_choice. rewrite He.
  rewrite (lower_valid_nonempty e Hin).
  rewrite (proj2 (includes_In _ _) Hin). reflexivity.
Qed.

Lemma env_choice_None :
  env_silent -> env_choice AIC_DEFAULT_TOOL host_lower = None.
Proof.
  unfold env_choice. intros [->|(e & -> & Hno)]; [reflexivity|].
  rewrite (proj2 (includes_not_In _ _) Hno). now rewrite andb_false_r.
Qed.

(** *** [loadConfig] on the world *)

Lemma load_missing (w : world) :
  existsSync path w = false -> load_config w = (w, inr DEFAULTS).
Proof.
  intros Hex. unfold Store.load, loadConfig.
  change (getConfigPath homedir path_join) with path. rewrite Hex.
  reflexivity.
Qed.

Lemma load_failed (w : world) (e : Exn) :
  existsSync path w = true ->
  load_from_file (fun p => readFileSync p w) JSON_parse path = inl e ->
  load_config w = (console_warn warning w, inr DEFAULTS).
Proof.
  intros Hex Hload. unfold Store.load, loadConfig.
  change (getConfigPath homedir path_join) with path. rewrite Hex.
  cbn [negb]. rewrite Hload. reflexivity.
Qed.

Lemma load_done (w : world) (r : loaded_config) :
  existsSync path w = true ->
  load_from_file (fun p => readFileSync p w) JSON_parse path = inr r ->
  load_config w
  = (fold_left (fun w' m => console_warn m w') (warnings r) w,
     inr (config r)).
Proof.
  intros Hex Hload. unfold Store.load, loadConfig.
  change (getConfigPath homedir path_join) with path. rewrite Hex.
  cbn [negb]. rewrite Hload. reflexivity.
Qed.

(** [loadConfig] returns, with an object. *)
Lemma load_returns (w : world) :
  exists w' props, load_config w = (w', inr (VObject props)).
Proof.
  destruct (existsSync path w) eqn:Hex.
  - destruct (load_from_file (fun p => readFileSync p w) JSON_parse path)
      as [e|r] eqn:Hload.
    + rewrite (load_failed w e Hex Hload). eauto.
    + rewrite (load_done w r Hex Hload).
      unfold load_from_file in Hload.
      destruct (readFileSync path w) as [?|content]; [discriminate|].
      cbn [bind] in Hload.
      destruct (JSON_parse content) as [?|loaded]; [discriminate|].
      cbn [bind] in Hload.
      destruct (get_tools loaded) as [?|tools]; [discriminate|].
      cbn [bind ret] in Hload. injection Hload as <-. cbn [config warnings].
      eauto.
  - rewrite (load_missing w Hex). eauto.
Qed.

Lemma tools_not_defaultTool : key_tools <> key_defaultTool.
Proof. vm_compute. discriminate. Qed.

Lemma defaults_spread : VObject (own_props DEFAULTS) = DEFAULTS.
Proof. reflexivity. Qed.

(** The file holds an object: its properties over the defaults, [tools]
    apart. *)
Lemma load_object (w : world) (content : jsstring)
  (loaded : gmap jsstring (jsval number)) :
  existsSync path w = true ->
  readFileSync path w = inr content ->
  JSON_parse content = inr (VObject loaded) ->
  exists props,
    load_config w = (w, inr (VObject props))
    /\ forall k, k <> key_tools ->
         props !! k = (loaded ∪ own_props DEFAULTS) !! k.
Proof.
  intros Hex Hread Hparse.
  assert (Hload :
    load_from_file (fun p => readFileSync p w) JSON_parse path
    = inr {| warnings := [];
             config :=
               VObject (<[key_tools :=
                            VObject (spread2 (VObject DEFAULT_TOOLS)
                                       (default VUndefined
                                          (loaded !! key_tools)))]>
                        (spread2 DEFAULTS (VObject loaded))) |}).
  { unfold load_from_file. rewrite Hread. cbn [bind]. rewrite Hparse.
    reflexivity. }
  eexists. split.
  - rewrite (load_done w _ Hex Hload). reflexivity.
  - intros k Hk. rewrite lookup_insert_ne by congruence. reflexivity.
Qed.

(** *** [getDefaultTool] *)

Lemma get_default_silent (w : world) :
  env_silent ->
  get_default w
  = io_bind world load_config
      (fun config =>
         io_ret world (value_or number_truthy (get_defaultTool config)
                         (VString (utf16 "claude")))) w.
Proof.
  intros Henv. unfold getDefaultTool. now rewrite (env_choice_None Henv).
Qed.

Lemma value_or_truthy (a b : jsval number) :
  truthy number_truthy b = true ->
  truthy number_truthy (value_or number_truthy a b) = true.
Proof.
  intros Hb. unfold value_or.
  destruct (truthy number_truthy a) eqn:Ha; [exact Ha | exact Hb].
Qed.

Lemma get_default_object (w : world) (content : jsstring)
  (loaded : gmap jsstring (jsval number)) (d : jsval number) :
  env_silent ->
  existsSync path w = true ->
  readFileSync path w = inr content ->
  JSON_parse content = inr (VObject loaded) ->
  loaded !! key_defaultTool = Some d ->
  get_default w
  = (w, inr (value_or number_truthy d (VString (utf16 "claude")))).
Proof.
  intros Henv Hex Hread Hparse Hd.
  rewrite (get_default_silent w Henv). unfold io_bind.
  destruct (load_object w content loaded Hex Hread Hparse)
    as (props & -> & Hprops).
  unfold io_ret, get_defaultTool. cbn [own_props].
  rewrite Hprops by (apply not_eq_sym, tools_not_defaultTool).
  rewrite (lookup_union_Some_l _ _ _ _ Hd). reflexivity.
Qed.

Lemma get_default_missing (w : world) :
  env_silent -> existsSync path w = false ->
  get_default w = (w, inr (VString (utf16 "claude"))).
Proof.
  intros Henv Hex. rewrite (get_default_silent w Henv). unfold io_bind.
  rewrite (load_missing w Hex). reflexivity.
Qed.

(** A valid tool in [AIC_DEFAULT_TOOL], in any letter case, is the default
    tool, lowered: the configuration file is not read and nothing is
    printed. *)
Theorem getDefaultTool_env_priority (e : jsstring) (w : world) :
  AIC_DEFAULT_TOOL = Some e -> In (lower e) validTools ->
  get_default w = (w, inr (VString (lower e))).
Proof.
  intros He Hin. unfold getDefaultTool.
  rewrite (env_choice_Some e He Hin). reflexivity.
Qed.

(** When the environment does not choose, [getDefaultTool] returns a truthy
    value and does not throw; it is 'claude' when there is no
    configuration file; and when the file holds an object with a
    [defaultTool], it is that value if truthy, whatever it is, and
    'claude' otherwise. *)
Theorem getDefaultTool_from_config (w : world) :
  env_silent ->
  (exists w' v, get_default w = (w', inr v)
                /\ truthy number_truthy v = true)
  /\ (existsSync path w = false ->
      get_default w = (w, inr (VString (utf16 "claude"))))
  /\ (forall content loaded d,
        existsSync path w = true ->
        readFileSync path w = inr content ->
        JSON_parse content = inr (VObject loaded) ->
        loaded !! key_defaultTool = Some d ->
        get_default w
        = (w, inr (if truthy number_truthy d then d
                   else VString (utf16 "claude")))).
Proof.
  intros Henv. split; [|split].
  - rewrite (get_default_silent w Henv). unfold io_bind.
    destruct (load_returns w) as (w' & props & ->).
    eexists _, _. split; [reflexivity|]. now apply value_or_truthy.
  - now apply get_default_missing.
  - intros content loaded d. now apply get_default_object.
Qed.

(** *** [setDefaultTool] *)

Lemma io_bind_inr {A B} (m : io world A) (k : A -> io world B)
  (w w' : world) (b : B) :
  io_bind world m k w = (w', inr b) ->
  exists w1 a, m w = (w1, inr a) /\ k a w1 = (w', inr b).
Proof.
  unfold io_bind. destruct (m w) as [w1 [e|a]]; [discriminate|]. eauto.
Qed.

Lemma set_default_invalid (tool : jsstring) (w : world) :
  ~ In (lower tool) validTools ->
  set_default tool w
  = (w, inr {| success := false;
               message := utf16 "Invalid tool " ++ [QUOTE] ++ tool
                          ++ [QUOTE]
                          ++ utf16 ". Valid options: claude, gemini" |}).
Proof.
  intros Hno. unfold setDefaultTool. cbv zeta.
  rewrite (proj2 (includes_not_In _ _) Hno). reflexivity.
Qed.

(** What a successful call with a valid tool did: the configuration was
    loaded, its [defaultTool] set, and the text of the result written to
    the configuration file. *)
Lemma set_default_valid (tool : jsstring) (w w' : world) (r : set_result) :
  In (lower tool) validTools ->
  set_default tool w = (w', inr r) ->
  success r = true
  /\ message r = utf16 "Default tool set to " ++ [QUOTE] ++ lower tool
                 ++ [QUOTE] ++ utf16 ". Will be used on next launch."
  /\ exists w1 props w2 text,
      load_config w = (w1, inr (VObject props))
      /\ ensure w1 = (w2, inr tt)
      /\ JSON_stringify
           (VObject (<[key_defaultTool := VString (lower tool)]> props))
         = inr text
      /\ writeFileSync path text w2 = (w', inr tt).
Proof.
  intros Hin Hset. unfold setDefaultTool in Hset. cbv zeta in Hset.
  rewrite (proj2 (includes_In _ _) Hin) in Hset. cbn [negb] in Hset.
  apply io_bind_inr in Hset. destruct Hset as (w1 & cfg & Hload & Hset).
  apply io_bind_inr in Hset. destruct Hset as (w3 & [] & Hsave & Hret).
  unfold io_ret, ret in Hret. injection Hret as <- <-.
  split; [reflexivity|]. split; [reflexivity|].
  destruct (load_returns w) as (w1' & props & Hload').
  rewrite Hload' in Hload. injection Hload as <- <-.
  unfold saveConfig in Hsave.
  apply io_bind_inr in Hsave. destruct Hsave as (w2 & [] & Hdir & Hsave).
  apply io_bind_inr in Hsave. destruct Hsave as (w2' & text & Hstr & Hwrite).
  unfold io_pure in Hstr. injection Hstr as <- Hstr.
  exists w1', props, w2, text. repeat split; assumption.
Qed.

(** [setDefaultTool] with a name that is no tool once lowered writes
    nothing, prints nothing and does not throw, even when the
    configuration file is broken: it returns a failure whose message
    quotes the name as it was given and lists the tools.  And whenever it
    returns, it reports success exactly for the valid tools. *)
Theorem setDefaultTool_validates (tool : jsstring) (w : world) :
  (~ In (lower tool) validTools ->
   set_default tool w
   = (w, inr {| success := false;
                message := utf16 "Invalid tool " ++ [QUOTE] ++ tool
                           ++ [QUOTE]
                           ++ utf16 ". Valid options: claude, gemini" |}))
  /\ (forall w' r,
        set_default tool w = (w', inr r) ->
        (success r = true <-> In (lower tool) validTools)).
Proof.
  split; [apply set_default_invalid|]. intros w' r Hset.
  destruct (includes validTools (lower tool)) eqn:Hinc;
    [apply includes_In in Hinc as Hin | apply includes_not_In in Hinc as Hno].
  - destruct (set_default_valid tool w w' r Hin Hset) as [Hs _]. tauto.
  - rewrite (set_default_invalid tool w Hno) in Hset.
    injection Hset as _ <-. cbn [success]. split; [discriminate | tauto].
Qed.


(** *** The shapes of a configuration file *)

Lemma defaults_over_nothing :
  <[key_tools := VObject (∅ ∪ DEFAULT_TOOLS)]> (∅ ∪ own_props DEFAULTS)
  = own_props DEFAULTS.
Proof.
  rewrite !(left_id_L ∅ (∪)). cbn [own_props DEFAULT_CONFIG].
  rewrite insert_insert_ne by apply tools_not_defaultTool.
  now rewrite insert_insert_eq.
Qed.

(** What [loadConfig] makes of a configuration file that parses.  The
    value [null] makes the read of [tools] throw: the defaults, and the
    warning on the console.  A boolean or a number has no property: the
    defaults, silently.  An object, an array or a string gives its own
    properties over the defaults, the unknown ones too, [tools] apart;
    nothing is printed. *)
Theorem loadConfig_file_shapes (w : world) (content : jsstring)
  (v : jsval number) :
  existsSync path w = true ->
  readFileSync path w = inr content ->
  JSON_parse content = inr v ->
  match v with
  | VNull | VUndefined =>
      load_config w = (console_warn warning w, inr DEFAULTS)
  | VBool _ | VNumber _ => load_config w = (w, inr DEFAULTS)
  | VString _ | VArray _ | VObject _ =>
      exists props,
        load_config w = (w, inr (VObject props))
        /\ forall k, k <> key_tools ->
             props !! k = (own_props v ∪ own_props DEFAULTS) !! k
  end.
Proof.
  intros Hex Hread Hparse.
  assert (Hfile :
    load_from_file (fun p => readFileSync p w) JSON_parse path
    = let* loaded_tools := get_tools v in
      ret {| warnings := [];
             config :=
               VObject (<[key_tools :=
                            VObject (spread2 (VObject DEFAULT_TOOLS)
                                       loaded_tools)]>
                        (spread2 DEFAULTS v)) |}).
  { unfold load_from_file. rewrite Hread. cbn [bind]. rewrite Hparse.
    reflexivity. }
  destruct v; cbn [get_tools bind ret throw] in Hfile.
  - exact (load_failed w _ Hex Hfile).
  - exact (load_failed w _ Hex Hfile).
  - rewrite (load_done w _ Hex Hfile). cbn [warnings config fold_left].
    unfold spread2. cbn [own_props]. now rewrite defaults_over_nothing.
  - rewrite (load_done w _ Hex Hfile). cbn [warnings config fold_left].
    unfold spread2. cbn [own_props]. now rewrite defaults_over_nothing.
  - eexists. split; [exact (load_done w _ Hex Hfile)|].
    intros k Hk. cbn [config]. rewrite lookup_insert_ne by congruence.
    reflexivity.
  - eexists. split; [exact (load_done w _ Hex Hfile)|].
    intros k Hk. cbn [config]. rewrite lookup_insert_ne by congruence.
    reflexivity.
  - eexists. split; [exact (load_done w _ Hex Hfile)|].
    intros k Hk. cbn [config]. rewrite lookup_insert_ne by congruence.
    reflexivity.
Qed.

(** *** [ensureConfigDir] *)

(** [ensureConfigDir] leaves the world alone when the directory exists.
    Where a directory made exists afterwards, a call that returns leaves
    the directory in place, and a second call changes nothing. *)
Theorem ensureConfigDir_idempotent (w w' : world) :
  (forall w0 w1, mkdirSync dir w0 = (w1, inr tt) ->
                 existsSync dir w1 = true) ->
  ensure w = (w', inr tt) ->
  existsSync dir w' = true
  /\ ensure w' = (w', inr tt)
  /\ (existsSync dir w = true -> w' = w).
Proof.
  intros Hmk Hens. unfold ensureConfigDir in Hens |- *. cbv zeta in *.
  destruct (existsSync dir w) eqn:Hex; cbn [negb] in Hens.
  - injection Hens as <-. rewrite Hex. cbn [negb]. auto.
  - pose proof (Hmk _ _ Hens) as Hex'. rewrite Hex'. cbn [negb].
    repeat split; auto. discriminate.
Qed.

End Host.

(** *** The store on the host in memory *)

Section Memory.

Import MemoryHost.

(** The configuration file with the text [text], in its directory. *)
Abbreviation with_file text :=
  {| dirs := [configDir homedir path_join; homedir];
     files := [(configPath homedir path_join, text)];
     console := [] |}.

(** [AIC_DEFAULT_TOOL=GEMINI] *)
Lemma getDefaultTool_env_priority_witness :
  getDefaultTool world homedir path_join existsSync readFileSync
    console_warn JSON_parse (Some (utf16 "GEMINI")) host_lower
    number_truthy fresh
  = (fresh, inr (VString (utf16 "gemini"))).
Proof.
  exact (getDefaultTool_env_priority world homedir path_join existsSync
           readFileSync console_warn JSON_parse (Some (utf16 "GEMINI"))
           host_lower number_truthy (utf16 "GEMINI") fresh eq_refl
           (or_intror (or_introl eq_refl))).
Defined.

(** A configuration file whose [defaultTool] is no tool of the program:
    it is returned as it is. *)
Lemma getDefaultTool_from_config_witness :
  getDefaultTool world homedir path_join existsSync readFileSync
    console_warn JSON_parse None host_lower number_truthy
    (with_file (utf16 "codex"))
  = (with_file (utf16 "codex"), inr (VString (utf16 "codex"))).
Proof.
  destruct (getDefaultTool_from_config world homedir path_join existsSync
              readFileSync console_warn JSON_parse None host_lower
              number_truthy (with_file (utf16 "codex")) (or_introl eq_refl))
    as (_ & _ & H).
  apply (H (utf16 "codex")
           (<[utf16 "defaultTool" := VString (utf16 "codex")]> ∅)
           (VString (utf16 "codex"))).
  - reflexivity.
  - reflexivity.
  - reflexivity.
  - apply lookup_insert_eq.
Defined.

(** A name that is no tool. *)
Lemma setDefaultTool_validates_witness :
  setDefaultTool world homedir path_join existsSync readFileSync mkdirSync
    writeFileSync console_warn JSON_parse JSON_stringify host_lower
    (utf16 "Codex") fresh
  = (fresh,
     inr {| success := false;
            message := utf16 "Invalid tool " ++ [QUOTE] ++ utf16 "Codex"
                       ++ [QUOTE]
                       ++ utf16 ". Valid options: claude, gemini" |}).
Proof.
  apply (proj1 (setDefaultTool_validates world homedir path_join existsSync
                  readFileSync mkdirSync writeFileSync console_warn
                  JSON_parse JSON_stringify host_lower (utf16 "Codex")
                  fresh)).
  intros [H|[H|[]]]; vm_compute in H; discriminate H.
Defined.


(** A file that holds an object with an unknown [defaultTool]. *)
Lemma loadConfig_file_shapes_witness :
  exists props,
    Store.load world homedir path_join existsSync readFileSync console_warn
      JSON_parse (with_file (utf16 "codex"))
    = (with_file (utf16 "codex"), inr (VObject props))
    /\ props !! utf16 "defaultTool" = Some (VString (utf16 "codex")).
Proof.
  destruct (loadConfig_file_shapes world homedir path_join existsSync
              readFileSync console_warn JSON_parse
              (with_file (utf16 "codex")) (utf16 "codex")
              (VObject (<[utf16 "defaultTool" := VString (utf16 "codex")]> ∅))
              eq_refl eq_refl eq_refl)
    as (props & Hload & Hprops).
  exists props. split; [exact Hload|].
  rewrite Hprops by (vm_compute; discriminate).
  apply lookup_union_Some_l, lookup_insert_eq.
Defined.

(** A fresh home directory: the configuration directory is made once. *)
Lemma ensureConfigDir_idempotent_witness :
  let w' := {| dirs := [configDir homedir path_join; homedir];
               files := []; console := [] |} in
  existsSync (configDir homedir path_join) w' = true
  /\ ensureConfigDir world homedir path_join existsSync mkdirSync w'
     = (w', inr tt).
Proof.
  intros w'.
  destruct (ensureConfigDir_idempotent world homedir path_join existsSync
              mkdirSync fresh w') as (Hex & Hens & _).
  - intros w0 w1 H. injection H as <-.
    unfold existsSync. cbn [dirs existsb]. unfold same.
    now rewrite bool_decide_eq_true_2 by reflexivity.
  - reflexivity.
  - split; [exact Hex | exact Hens].
Defined.

End Memory.

End StoreProps.

(** ** The tool list of [src/index.ts] *)

Module CliProps.
Import JS Gemini Cli.

Lemma skipn_exact {A} (a b : list A) (n : nat) :
  length a = n -> skipn n (a ++ b) = b.
Proof.
  intros <-. rewrite skipn_app, skipn_all, Nat.sub_diag. reflexivity.
Qed.

Lemma firstn_exact {A} (a b : list A) : firstn (length a) (a ++ b) = a.
Proof.
  rewrite firstn_app, firstn_all, Nat.sub_diag. simpl. apply app_nil_r.
Qed.

Lemma padEnd_length (s : jsstring) (n : nat) :
  length (padEnd s n) = Nat.max (length s) n.
Proof. unfold padEnd. rewrite length_app, repeat_length. lia. Qed.

Lemma tool_status_length (available : bool) :
  length (tool_status available) = 11%nat.
Proof. now destruct available. Qed.

(** The columns of the line the command [tools] prints for an adapter
    whose names fit: the name at offset 2, the display name at offset 13,
    the status at offset 29, whatever the names; the line has 40
    characters. *)
Theorem tool_line_columns (name displayName : jsstring) (available : bool) :
  (length name <= 10)%nat -> (length displayName <= 15)%nat ->
  let line := tool_line name displayName available in
  firstn (length name) (skipn 2 line) = name
  /\ firstn (length displayName) (skipn 13 line) = displayName
  /\ skipn 29 line = tool_status available
  /\ length line = 40%nat.
Proof.
  intros Hn Hd line. subst line. unfold tool_line.
  change (utf16 "  ") with [0x20; 0x20]. change (utf16 " ") with [0x20].
  pose proof (padEnd_length name 10) as Ln.
  pose proof (padEnd_length displayName 15) as Ld.
  rewrite Nat.max_r in Ln, Ld by assumption.
  split; [|split; [|split]].
  - cbn [app skipn]. unfold padEnd. rewrite <- app_assoc.
    apply firstn_exact.
  - rewrite (app_assoc [0x20; 0x20]), (app_assoc _ [0x20]).
    rewrite skipn_exact by (rewrite !length_app, Ln; reflexivity).
    unfold padEnd. rewrite <- app_assoc. apply firstn_exact.
  - rewrite (app_assoc [0x20; 0x20]), (app_assoc _ [0x20]),
      (app_assoc _ (padEnd displayName 15)), (app_assoc _ [0x20]).
    apply skipn_exact. rewrite !length_app, Ln, Ld. reflexivity.
  - rewrite !length_app, Ln, Ld, tool_status_length. reflexivity.
Qed.

(** The line of the Gemini adapter. *)
Lemma tool_line_columns_witness :
  skipn 29 (tool_line name displayName true) = utf16 "✓ available"
  /\ length (tool_line name displayName true) = 40%nat.
Proof.
  destruct (tool_line_columns name displayName true)
    as (_ & _ & Hs & Hl).
  - vm_compute. lia.
  - vm_compute. lia.
  - split; [exact Hs | exact Hl].
Defined.

End CliProps.
